(** * CHIP.STREAM (app.py): catalog store, multipart decoder, range streaming

    A shallow embedding of [app.py] and the properties of its catalog store,
    its hand-written multipart/form-data decoder and its streaming engine.

    Python values are modelled as follows.
    - [bytes] is [list byte].
    - A decoded [str] is the list of its Unicode code points ([list N]).
    - A header value is a [str] that [http.server] decoded as ISO-8859-1;
      it is the list of its 8-bit characters ([list ascii]).
    - Exceptions are explicit: a fallible operation returns a [result]. *)

From Stdlib Require Import ZArith NArith Strings.Ascii Strings.String Strings.Byte.
From Stdlib Require Import Numbers.DecimalString.
From stdpp Require Import base option list gmap.

Local Open Scope Z_scope.

(** ** Exceptions *)

Inductive exn : Set :=
  | ValueError      (* int() on a bad literal, split/partition on an empty separator *)
  | StructError     (* struct.error: a field does not fit its format *)
  | JSONDecodeError (* json.loads on a document that is not JSON *)
  | OSError         (* seek to a negative offset *).

Inductive result (A : Type) : Type :=
  | Ok (a : A)
  | Raise (e : exn).
Arguments Ok {A} a.
Arguments Raise {A} e.

#[global] Instance result_bind : MBind result :=
  fun A B (k : A -> result B) (m : result A) =>
    match m with
    | Ok a => k a
    | Raise e => Raise e
    end.

(** ** Sequence operations shared by [bytes] and [str] *)

Section Seq.
Context {A : Type} `{EqDecision A}.
Implicit Types s sep p : list A.

(** [s.startswith(p)] *)
Fixpoint startswith s p : bool :=
  match p, s with
  | [], _ => true
  | _ :: _, [] => false
  | x :: p', y :: s' => bool_decide (x = y) && startswith s' p'
  end.

(** [s.find(sep)]: the offset of the first occurrence. *)
Fixpoint find sep s : option nat :=
  if startswith s sep then Some 0%nat
  else match s with
       | [] => None
       | _ :: s' => S <$> find sep s'
       end.

(** [sep in s] *)
Definition contains sep s : bool := bool_decide (is_Some (find sep s)).

(** The loop of [s.split(sep)] for a non-empty separator: cut at the first
    occurrence and go on after it.  Every cut consumes at least one
    element, so [length s] rounds are enough. *)
Fixpoint split_loop (fuel : nat) sep s : list (list A) :=
  match fuel with
  | O => [s]
  | S fuel' =>
      match find sep s with
      | None => [s]
      | Some i => take i s :: split_loop fuel' sep (drop (i + length sep) s)
      end
  end.

(** [s.split(sep)] for a separator that is a non-empty literal. *)
Definition split_lit s sep : list (list A) := split_loop (length s) sep s.

(** [s.split(sep)]; an empty separator raises [ValueError]. *)
Definition split s sep : result (list (list A)) :=
  match sep with
  | [] => Raise ValueError
  | _ :: _ => Ok (split_lit s sep)
  end.

(** [s.partition(sep)] for a separator that is a non-empty literal. *)
Definition partition s sep : list A * list A * list A :=
  match find sep s with
  | None => (s, [], [])
  | Some i => (take i s, sep, drop (i + length sep) s)
  end.

(** [s.lstrip(chars)], [s.rstrip(chars)], [s.strip(chars)] for a
    predicate [chars] on elements. *)
Fixpoint lstrip (chars : A -> bool) s : list A :=
  match s with
  | [] => []
  | x :: s' => if chars x then lstrip chars s' else s
  end.

Definition rstrip (chars : A -> bool) s : list A :=
  reverse (lstrip chars (reverse s)).

Definition strip (chars : A -> bool) s : list A :=
  rstrip chars (lstrip chars s).

(** Membership of an element in the characters of a literal. *)
Definition one_of (chars : list A) (x : A) : bool := bool_decide (x ∈ chars).

(** Truthiness of a sequence: non-empty. *)
Definition truthy s : bool :=
  match s with
  | [] => false
  | _ :: _ => true
  end.

(** Truthiness of a value that may be [None]. *)
Definition truthy_opt (o : option (list A)) : bool :=
  match o with
  | None => false
  | Some s => truthy s
  end.
End Seq.

(** ** Bytes, header strings, text *)

Abbreviation bytes := (list byte).
Abbreviation hstr := (list ascii).
Abbreviation str := (list N).

#[global] Instance byte_eq_dec : EqDecision byte := Byte.byte_eq_dec.

Definition blit (s : string) : bytes := list_byte_of_string s.
Definition hlit (s : string) : hstr := list_ascii_of_string s.
Definition ulit (s : string) : str := N_of_ascii <$> list_ascii_of_string s.

Definition CR : byte := x0d.
Definition LF : byte := x0a.
Definition CRLF : bytes := [CR; LF].
Definition CRLFCRLF : bytes := [CR; LF; CR; LF].

(** *** [bytes.decode(errors="replace")] (UTF-8)

    CPython replaces every maximal ill-formed prefix by U+FFFD: an invalid
    start byte alone, a lead byte together with the continuation bytes that
    were valid so far, and a truncated sequence at the end of the input as
    a whole. *)

Definition REPLACEMENT : N := 0xFFFD%N.

Definition is_cont (b : N) : bool := ((0x80 <=? b) && (b <? 0xC0))%N.

(** Second byte of a three-byte form: rejects overlong forms and surrogates. *)
Definition bad_second3 (b1 b2 : N) : bool :=
  (negb (is_cont b2) || (if b2 <? 0xA0 then b1 =? 0xE0 else b1 =? 0xED))%N.

(** Second byte of a four-byte form: rejects overlong forms and values
    above U+10FFFF. *)
Definition bad_second4 (b1 b2 : N) : bool :=
  (negb (is_cont b2) || (if b2 <? 0x90 then b1 =? 0xF0 else b1 =? 0xF4))%N.

Definition cp2 (b1 b2 : N) : N :=
  (N.lor (N.shiftl (N.land b1 0x1F) 6) (N.land b2 0x3F))%N.
Definition cp3 (b1 b2 b3 : N) : N :=
  (N.lor (N.shiftl (N.land b1 0x0F) 12)
         (N.lor (N.shiftl (N.land b2 0x3F) 6) (N.land b3 0x3F)))%N.
Definition cp4 (b1 b2 b3 b4 : N) : N :=
  (N.lor (N.shiftl (N.land b1 0x07) 18)
         (N.lor (N.shiftl (N.land b2 0x3F) 12)
                (N.lor (N.shiftl (N.land b3 0x3F) 6) (N.land b4 0x3F))))%N.

Fixpoint decode_utf8 (s : list N) : str :=
  match s with
  | [] => []
  | b1 :: r1 =>
      if (b1 <? 0x80)%N then b1 :: decode_utf8 r1
      else if (b1 <? 0xC2)%N then REPLACEMENT :: decode_utf8 r1
      else if (b1 <? 0xE0)%N then
        match r1 with
        | [] => [REPLACEMENT]
        | b2 :: r2 =>
            if is_cont b2 then cp2 b1 b2 :: decode_utf8 r2
            else REPLACEMENT :: decode_utf8 r1
        end
      else if (b1 <? 0xF0)%N then
        match r1 with
        | [] => [REPLACEMENT]
        | b2 :: r2 =>
            if bad_second3 b1 b2 then REPLACEMENT :: decode_utf8 r1
            else
              match r2 with
              | [] => [REPLACEMENT]
              | b3 :: r3 =>
                  if is_cont b3 then cp3 b1 b2 b3 :: decode_utf8 r3
                  else REPLACEMENT :: decode_utf8 r2
              end
        end
      else if (b1 <? 0xF5)%N then
        match r1 with
        | [] => [REPLACEMENT]
        | b2 :: r2 =>
            if bad_second4 b1 b2 then REPLACEMENT :: decode_utf8 r1
            else
              match r2 with
              | [] => [REPLACEMENT]
              | b3 :: r3 =>
                  if negb (is_cont b3) then REPLACEMENT :: decode_utf8 r2
                  else
                    match r3 with
                    | [] => [REPLACEMENT]
                    | b4 :: r4 =>
                        if is_cont b4 then cp4 b1 b2 b3 b4 :: decode_utf8 r4
                        else REPLACEMENT :: decode_utf8 r3
                    end
              end
        end
      else REPLACEMENT :: decode_utf8 r1
  end.

Definition decode (b : bytes) : str := decode_utf8 (Byte.to_N <$> b).

Definition hx (l : list N) : bytes :=
  (fun n => default x00 (Byte.of_N n)) <$> l.

(** *** Text operations *)

(** [c.isspace()] *)
Definition isspace (c : N) : bool :=
  ((0x09 <=? c) && (c <=? 0x0D) || (0x1C <=? c) && (c <=? 0x20)
   || (c =? 0x85) || (c =? 0xA0) || (c =? 0x1680)
   || (0x2000 <=? c) && (c <=? 0x200A)
   || (c =? 0x2028) || (c =? 0x2029) || (c =? 0x202F) || (c =? 0x205F)
   || (c =? 0x3000))%N.

(** A line boundary of [str.splitlines()] other than CR. *)
Definition is_linebreak (c : N) : bool :=
  ((0x0A <=? c) && (c <=? 0x0C) || (0x1C <=? c) && (c <=? 0x1E)
   || (c =? 0x85) || (c =? 0x2028) || (c =? 0x2029))%N.

(** The loop of [s.splitlines()]; [cur] is the current line, reversed. *)
Fixpoint splitlines_loop (cur s : str) : list str :=
  match s with
  | [] => match cur with [] => [] | _ :: _ => [reverse cur] end
  | c :: s' =>
      if (c =? 0x0D)%N then
        match s' with
        | c' :: s'' =>
            if (c' =? 0x0A)%N then reverse cur :: splitlines_loop [] s''
            else reverse cur :: splitlines_loop [] s'
        | [] => reverse cur :: splitlines_loop [] s'
        end
      else if is_linebreak c then reverse cur :: splitlines_loop [] s'
      else splitlines_loop (c :: cur) s'
  end.

Definition splitlines (s : str) : list str := splitlines_loop [] s.

(** [s.lower()].  Exact on ASCII and on the two other code points whose
    lower-case form contains an ASCII letter (U+0130, U+212A).  Every other
    code point is left as it is: its lower-case form is not ASCII either,
    and the source only compares lowered text with ASCII literals. *)
Definition lower_char (c : N) : str :=
  (if (0x41 <=? c) && (c <=? 0x5A) then [c + 0x20]
   else if c =? 0x130 then [0x69; 0x307]
   else if c =? 0x212A then [0x6B]
   else [c])%N.

Definition lower (s : str) : str := s ≫= lower_char.

Definition QUOTE : N := 0x22%N.

(** ** The multipart decoder ([ChipHandler._parse_multipart]) *)

(** The variables a part leaves behind for the end of the loop body. *)
Record part_vars : Type := PartVars {
  pv_name : str;            (* name *)
  pv_fn : option str;       (* fn *)
  pv_content : bytes        (* content *)
}.

(** The decoder's three results while it runs. *)
Record parse_state : Type := ParseState {
  fields : gmap str str;
  file_data : option bytes;
  filename : option str
}.

(** The first header line that starts with "content-disposition" in any
    case, or the empty string. *)
Fixpoint find_disposition (lines : list str) : str :=
  match lines with
  | [] => []
  | line :: rest =>
      if startswith (lower line) (ulit "content-disposition") then line
      else find_disposition rest
  end.

(** One round of the loop over the segments of the disposition line. *)
Definition scan_segment (acc : str * option str) (seg : str) : str * option str :=
  let seg := strip isspace seg in
  if startswith seg (ulit "name=") then
    (strip (one_of [QUOTE]) (drop 5 seg), acc.2)
  else if startswith seg (ulit "filename=") then
    (acc.1, Some (strip (one_of [QUOTE]) (drop 9 seg)))
  else acc.

(** The body of the loop over the parts up to the final [if fn]; [None]
    is a [continue]. *)
Definition read_part (part : bytes) : option part_vars :=
  if bool_decide (part ∈ [[]; blit "--"; blit "--" ++ CRLF]) then None
  else
    let part := if startswith part CRLF then drop 2 part else part in
    if negb (contains CRLFCRLF part) then None
    else
      let '(headers_raw, _, content) := partition part CRLFCRLF in
      let content :=
        rstrip (one_of CRLF) (rstrip (one_of (blit "--")) (rstrip (one_of CRLF) content)) in
      let headers_text := decode headers_raw in
      let disp := find_disposition (splitlines headers_text) in
      let '(name, fn) := foldl scan_segment ([], None) (split_lit disp (ulit ";")) in
      Some (PartVars name fn content).

(** The end of the loop body: a part with a file name is the file, a part
    with only a name is a text field. *)
Definition store_part (st : parse_state) (v : part_vars) : parse_state :=
  if truthy_opt (pv_fn v) then
    ParseState (fields st) (Some (pv_content v)) (pv_fn v)
  else if truthy (pv_name v) then
    ParseState (<[pv_name v := decode (pv_content v)]> (fields st))
               (file_data st) (filename st)
  else st.

(** The loop [for part in parts[1:]]. *)
Fixpoint parse_parts (parts : list bytes) (st : parse_state) : parse_state :=
  match parts with
  | [] => st
  | part :: rest =>
      match read_part part with
      | None => parse_parts rest st
      | Some v => parse_parts rest (store_part st v)
      end
  end.

Definition _parse_multipart (body boundary : bytes) : result parse_state :=
  let delimiter := blit "--" ++ boundary in
  parts ← split body delimiter;
  Ok (parse_parts (drop 1 parts) (ParseState ∅ None None)).

(** ** Header strings (ISO-8859-1) *)

Definition code (c : ascii) : Z := Z.of_N (N_of_ascii c).

(** [c.isspace()] on the first 256 code points. *)
Definition hisspace (c : ascii) : bool := isspace (N_of_ascii c).

(** The white space [int()] skips around a literal: the C locale's, and the
    Unicode spaces above U+007F. *)
Definition int_space (c : ascii) : bool :=
  let n := code c in
  (9 <=? n) && (n <=? 13) || (n =? 32) || (n =? 0x85) || (n =? 0xA0).

Definition digit_value (c : ascii) : option Z :=
  let n := code c in
  if (48 <=? n) && (n <=? 57) then Some (n - 48) else None.

(** CPython's default limit on the digits of a decimal literal. *)
Definition INT_MAX_STR_DIGITS : nat := 4300.

(** The digits of a literal after its first digit: digits, with single
    underscores between them.  [prev_us] tells whether the previous
    character was an underscore. *)
Fixpoint int_digits (prev_us : bool) (acc : Z) (count : nat) (s : hstr)
  : option (Z * nat) :=
  match s with
  | [] => if prev_us then None else Some (acc, count)
  | c :: s' =>
      if bool_decide (c = "_"%char) then
        if prev_us then None else int_digits true acc count s'
      else
        match digit_value c with
        | Some d => int_digits false (10 * acc + d) (S count) s'
        | None => None
        end
  end.

Definition int_unsigned (s : hstr) : option Z :=
  match s with
  | [] => None
  | c :: s' =>
      match digit_value c with
      | None => None
      | Some d =>
          match int_digits false d 1 s' with
          | Some (v, count) =>
              if bool_decide (count ≤ INT_MAX_STR_DIGITS)%nat then Some v else None
          | None => None
          end
      end
  end.

(** [int(s)] for a header string. *)
Definition py_int (s : hstr) : result Z :=
  let core := strip int_space s in
  let signed :=
    match core with
    | c :: rest =>
        if bool_decide (c = "-"%char) then Z.opp <$> int_unsigned rest
        else if bool_decide (c = "+"%char) then int_unsigned rest
        else int_unsigned core
    | [] => None
    end in
  match signed with
  | Some v => Ok v
  | None => Raise ValueError
  end.

(** [s.encode()] (UTF-8) of a header string. *)
Definition encode_char (c : ascii) : bytes :=
  let n := N_of_ascii c in
  if (n <? 0x80)%N then hx [n]
  else hx [N.lor 0xC0 (N.shiftr n 6); N.lor 0x80 (N.land n 0x3F)].

Definition encode (s : hstr) : bytes := s ≫= encode_char.

(** ** [struct.pack] and [int.from_bytes] *)

(** The [n] low bytes of [v], least significant first. *)
Fixpoint le_bytes (n : nat) (v : Z) : bytes :=
  match n with
  | O => []
  | S n' =>
      default x00 (Byte.of_N (Z.to_N (Z.land v 0xFF))) :: le_bytes n' (Z.shiftr v 8)
  end.

(** Format [I] of a little-endian layout. *)
Definition pack_I (v : Z) : result bytes :=
  if (0 <=? v) && (v <=? 4294967295) then Ok (le_bytes 4 v) else Raise StructError.

(** Format [H] of a little-endian layout. *)
Definition pack_H (v : Z) : result bytes :=
  if (0 <=? v) && (v <=? 65535) then Ok (le_bytes 2 v) else Raise StructError.

(** [int.from_bytes(b, "little")] *)
Fixpoint from_le (b : bytes) : Z :=
  match b with
  | [] => 0
  | x :: b' => Z.of_N (Byte.to_N x) + 256 * from_le b'
  end.

(** ** [pathlib.Path(s).suffix] (POSIX flavour) *)

Definition DOT : N := 0x2E%N.
Definition SLASH : N := 0x2F%N.

(** The last component that is neither empty nor a single dot. *)
Definition path_name (s : str) : str :=
  default [] (last (filter (fun c => c ≠ [] ∧ c ≠ [DOT]) (split_lit s [SLASH]))).

(** [name.rfind(".")] *)
Definition rfind_dot (name : str) : option nat :=
  (fun i => (length name - 1 - i)%nat) <$> find [DOT] (reverse name).

Definition path_suffix (s : str) : str :=
  let name := path_name s in
  match rfind_dot name with
  | Some i =>
      if bool_decide (0 < i < length name - 1)%nat then drop i name else []
  | None => []
  end.

(** ** [urllib.parse.unquote] *)

Definition PERCENT : N := 0x25%N.

Definition hex_value (c : N) : option N :=
  (if (0x30 <=? c) && (c <=? 0x39) then Some (c - 0x30)
   else if (0x41 <=? c) && (c <=? 0x46) then Some (c - 0x41 + 10)
   else if (0x61 <=? c) && (c <=? 0x66) then Some (c - 0x61 + 10)
   else None)%N.

(** [unquote_to_bytes] on a run of ASCII characters: a percent sign followed
    by two hexadecimal digits is one byte, any other percent sign stays. *)
Fixpoint unquote_to_bytes (s : list N) : list N :=
  match s with
  | [] => []
  | c :: s1 =>
      if (c =? PERCENT)%N then
        match s1 with
        | h1 :: h2 :: s3 =>
            match hex_value h1, hex_value h2 with
            | Some a, Some b => (16 * a + b)%N :: unquote_to_bytes s3
            | _, _ => c :: unquote_to_bytes s1
            end
        | _ => c :: unquote_to_bytes s1
        end
      else c :: unquote_to_bytes s1
  end.

(** Every maximal run of ASCII characters is unquoted and decoded on its
    own; [run] is the current run, reversed. *)
Fixpoint unquote_runs (run : list N) (s : str) : str :=
  match s with
  | [] => decode_utf8 (unquote_to_bytes (reverse run))
  | c :: s' =>
      if (c <? 0x80)%N then unquote_runs (c :: run) s'
      else decode_utf8 (unquote_to_bytes (reverse run)) ++ c :: unquote_runs [] s'
  end.

Definition unquote (s : str) : str :=
  if bool_decide (PERCENT ∈ s) then unquote_runs [] s else s.

(** ** Config *)

Definition CHUNK_SIZE : Z := 65536.

Definition ALLOWED_EXTS : gset str :=
  list_to_set (ulit <$> [".mp3"; ".ogg"; ".wav"; ".flac"; ".mod"; ".xm"; ".s3m";
                         ".it"; ".nsf"; ".spc"; ".gbs"; ".vgm"; ".vgz"; ".fc"])%string.

(** ** The catalog store *)

(** A song record: the dictionary [meta] that [_api_upload] builds. *)
Record song : Type := Song {
  s_id : str;
  s_title : str;
  s_artist : str;
  s_comment : str;
  s_filename : str;
  s_ext : str;
  s_size : Z;
  s_uploaded : str
}.

#[global] Instance song_eq_dec : EqDecision song.
Proof. solve_decision. Defined.

(** The content of [songs.json].  Python's [json] module is taken by its
    contract: the text [json.dumps] writes for a list of records is read
    back by [json.loads] as that list, and a text that is not JSON (or not
    UTF-8) makes reading raise. *)
Inductive document : Type :=
  | Garbled (raw : bytes)
  | Dumped (songs : list song).

(** [json.loads(DB_FILE.read_text(encoding="utf-8"))] *)
Definition json_loads (doc : document) : result (list song) :=
  match doc with
  | Garbled _ => Raise JSONDecodeError
  | Dumped songs => Ok songs
  end.

(** [json.dumps(songs, ensure_ascii=False, indent=2)] *)
Definition json_dumps (songs : list song) : document := Dumped songs.

(** The files the service owns: [DB_FILE] if it exists, and the files of
    [UPLOAD_DIR] by name. *)
Record disk : Type := Disk {
  db_file : option document;
  uploads : gmap str bytes
}.

Definition load_db (d : disk) : list song :=
  match db_file d with
  | Some doc =>
      match json_loads doc with
      | Ok songs => songs
      | Raise _ => []          (* except Exception: pass *)
      end
  | None => []
  end.

Definition save_db (songs : list song) (d : disk) : disk :=
  Disk (Some (json_dumps songs)) (uploads d).

Definition get_songs (d : disk) : list song := load_db d.

Definition add_song (meta : song) (d : disk) : disk :=
  let songs := load_db d in
  save_db (songs ++ [meta]) d.

Definition delete_song_by_id (song_id : str) (d : disk) : bool * disk :=
  let songs := load_db d in
  let new := filter (fun s => s_id s ≠ song_id) songs in
  if bool_decide (length new = length songs) then (false, d)
  else (true, save_db new d).

(** [next((s for s in songs if s["id"] == song_id), None)] *)
Definition find_song (song_id : str) (songs : list song) : option song :=
  head (filter (fun s => s_id s = song_id) songs).

(** ** Responses *)

Inductive json_body : Type :=
  | JError (msg : str)        (* {"error": msg} *)
  | JOk                       (* {"ok": true} *)
  | JUploaded (meta : song)   (* {"ok": true, "song": meta} *).

Inductive header_value : Type :=
  | HText (s : string)
  | HMime (s : str)
  | HInt (n : Z)
  | HRange (first last total : Z)   (* bytes first-last/total *).

Inductive response : Type :=
  | SendJson (data : json_body) (status : Z)
  | SendBytes (status : Z) (headers : list (string * header_value)) (body : bytes).

Definition status_of (r : response) : Z :=
  match r with
  | SendJson _ status => status
  | SendBytes status _ _ => status
  end.

Definition send_json (data : json_body) (status : Z) : response := SendJson data status.

Definition send_error_json (msg : str) (status : Z) : response :=
  send_json (JError msg) status.

Definition _cors : list (string * header_value) :=
  [("Access-Control-Allow-Origin", HText "*");
   ("Access-Control-Allow-Methods", HText "GET, POST, DELETE, OPTIONS");
   ("Access-Control-Allow-Headers", HText "Content-Type")]%string.

(** ** [ChipHandler._api_upload] *)

(** What a POST request carries: two of its headers and the bytes the
    client sent after the header block. *)
Record post_request : Type := PostRequest {
  hdr_content_type : option hstr;
  hdr_content_length : option hstr;
  rfile : bytes
}.

(** What the handler draws from [uuid.uuid4()] and from the clock. *)
Record fresh : Type := Fresh {
  uuid4 : str;         (* str(uuid.uuid4()) *)
  utcnow : str         (* datetime.utcnow().isoformat() + "Z" *)
}.

(** The loop over [ct.split(";")] that looks for the boundary. *)
Fixpoint find_boundary (parts : list hstr) : option bytes :=
  match parts with
  | [] => None
  | part :: rest =>
      let part := strip hisspace part in
      if startswith part (hlit "boundary=") then
        Some (encode (strip (one_of [ascii_of_N QUOTE]) (drop 9 part)))
      else find_boundary rest
  end.

(** [int(self.headers.get("Content-Length", 0))] *)
Definition content_length (rq : post_request) : result Z :=
  match hdr_content_length rq with
  | Some v => py_int v
  | None => Ok 0
  end.

(** [self.rfile.read(length)] *)
Definition rfile_read (length : Z) (f : bytes) : bytes :=
  if length <? 0 then f else take (Z.to_nat length) f.

(** [fields.get(key, "").strip()] *)
Definition field (fs : gmap str str) (key : string) : str :=
  strip isspace (default [] (fs !! ulit key)).

(** [a or b] on text *)
Definition or_else (a b : str) : str := if truthy a then a else b.

Definition _api_upload (rq : post_request) (fr : fresh) (d : disk)
  : result (response * disk) :=
  let ct := default [] (hdr_content_type rq) in
  if negb (contains (hlit "multipart/form-data") ct) then
    Ok (send_error_json (ulit "Expected multipart/form-data") 400, d)
  else
    let boundary := find_boundary (split_lit ct (hlit ";")) in
    if negb (truthy_opt boundary) then
      Ok (send_error_json (ulit "Missing boundary") 400, d)
    else
      let boundary := default [] boundary in
      length ← content_length rq;
      let body := rfile_read length (rfile rq) in
      parsed ← _parse_multipart body boundary;
      let title := or_else (field (fields parsed) "title") (ulit "Unknown Title") in
      let artist := or_else (field (fields parsed) "artist") (ulit "Unknown Artist") in
      let comment := field (fields parsed) "comment" in
      if negb (truthy_opt (file_data parsed)) || negb (truthy_opt (filename parsed)) then
        Ok (send_error_json (ulit "No file uploaded") 400, d)
      else
        let file_data := default [] (file_data parsed) in
        let filename := default [] (filename parsed) in
        let ext := lower (path_suffix filename) in
        if bool_decide (ext ∉ ALLOWED_EXTS) then
          Ok (send_error_json (ulit "Unsupported format: " ++ ext) 400, d)
        else
          let song_id := uuid4 fr in
          let save_name := song_id ++ ext in
          let d := Disk (db_file d) (<[save_name := file_data]> (uploads d)) in
          let meta :=
            {| s_id := song_id; s_title := title; s_artist := artist;
               s_comment := comment; s_filename := save_name; s_ext := ext;
               s_size := Z.of_nat (List.length file_data); s_uploaded := utcnow fr |} in
          let d := add_song meta d in
          Ok (send_json (JUploaded meta) 201, d).

(** ** [ChipHandler._api_delete] *)

(** [(UPLOAD_DIR / name).unlink(missing_ok=True)] *)
Definition unlink (name : str) (d : disk) : disk :=
  Disk (db_file d) (delete name (uploads d)).

Definition _api_delete (song_id : str) (d : disk) : response * disk :=
  let songs := get_songs d in
  match find_song song_id songs with
  | None => (send_error_json (ulit "Not found") 404, d)
  | Some target =>
      let d := (delete_song_by_id song_id d).2 in
      let d := unlink (s_filename target) d in
      (send_json JOk 200, d)
  end.

(** ** [ChipHandler._stream_fc_as_wav] *)

(** [struct.pack("<4sI4s4sIHHIIHH4sI", b"RIFF", chunk_size, b"WAVE", b"fmt ",
    16, 1, channels, sample_rate, byte_rate, block_align, bit_depth,
    b"data", pcm_size)] *)
Definition pack_wav_header
  (chunk_size channels sample_rate byte_rate block_align bit_depth pcm_size : Z)
  : result bytes :=
  f_chunk ← pack_I chunk_size;
  f_fmt_size ← pack_I 16;
  f_tag ← pack_H 1;
  f_channels ← pack_H channels;
  f_rate ← pack_I sample_rate;
  f_byte_rate ← pack_I byte_rate;
  f_align ← pack_H block_align;
  f_bits ← pack_H bit_depth;
  f_data ← pack_I pcm_size;
  Ok (blit "RIFF" ++ f_chunk ++ blit "WAVE" ++ blit "fmt " ++ f_fmt_size
      ++ f_tag ++ f_channels ++ f_rate ++ f_byte_rate ++ f_align ++ f_bits
      ++ blit "data" ++ f_data).

(** The loop [while True: chunk = f.read(CHUNK_SIZE) ...]; [f] is what is
    left of the file. *)
Fixpoint copy_chunks (fuel : nat) (f : bytes) : bytes :=
  match fuel with
  | O => []
  | S fuel' =>
      let chunk := take (Z.to_nat CHUNK_SIZE) f in
      if truthy chunk then chunk ++ copy_chunks fuel' (drop (Z.to_nat CHUNK_SIZE) f)
      else []
  end.

(** [data] is the content of the file at [fpath]. *)
Definition _stream_fc_as_wav (data : bytes) : result response :=
  let header := take 6 data in
  let f := drop 6 data in
  let sample_rate := from_le (take 4 header) in
  let channels := from_le (take 2 (drop 4 header)) in
  let bit_depth := 16 in
  let pcm_size := Z.of_nat (length data) - 6 in
  let byte_rate := (sample_rate * channels * bit_depth) `div` 8 in
  let block_align := (channels * bit_depth) `div` 8 in
  wav_header ← pack_wav_header (36 + pcm_size) channels sample_rate byte_rate
                               block_align bit_depth pcm_size;
  Ok (SendBytes 200 [("Content-Type", HText "audio/wav")]%string
                (wav_header ++ copy_chunks (S (length f)) f)).

(** ** [ChipHandler._stream] *)

(** The range of the response: lines 283-292.  The two assignments of the
    [try] block run in order, and [except ValueError: pass] leaves whatever
    was assigned before the failure. *)
Definition range_bounds (range_header : option hstr) (file_size : Z) : Z * Z :=
  let start := 0 in
  let end_ := file_size - 1 in
  if truthy_opt range_header && startswith (default [] range_header) (hlit "bytes=") then
    let parts := split_lit (drop 6 (default [] range_header)) (hlit "-") in
    let p0 := default [] (parts !! 0%nat) in
    let p1 := default [] (parts !! 1%nat) in
    match (if truthy p0 then py_int p0 else Ok 0) with
    | Raise _ => (start, end_)
    | Ok start =>
        match (if bool_decide (1 < length parts)%nat && truthy p1
               then py_int p1 else Ok (file_size - 1)) with
        | Raise _ => (start, end_)
        | Ok end_ => (start, end_)
        end
    end
  else (start, end_).

(** [status = 206 if range_header else 200] *)
Definition stream_status (range_header : option hstr) : Z :=
  if truthy_opt range_header then 206 else 200.

(** The loop [while remaining > 0: ...] after [f.seek(start)]. *)
Fixpoint send_chunks (fuel : nat) (f : bytes) (remaining : Z) : bytes :=
  match fuel with
  | O => []
  | S fuel' =>
      if 0 <? remaining then
        let chunk := take (Z.to_nat (Z.min CHUNK_SIZE remaining)) f in
        if truthy chunk then
          chunk ++ send_chunks fuel' (drop (length chunk) f)
                               (remaining - Z.of_nat (length chunk))
        else []
      else []
  end.

Section Stream.
(** [mimetypes.guess_type(path)[0]], a table of the host. *)
Variable guess_type : str -> option str.

Definition _stream (range_header : option hstr) (raw_id : str) (d : disk)
  : result response :=
  let song_id := unquote raw_id in
  let songs := get_songs d in
  match find_song song_id songs with
  | None => Ok (send_error_json (ulit "Not found") 404)
  | Some target =>
      match uploads d !! s_filename target with
      | None => Ok (send_error_json (ulit "File missing") 404)
      | Some data =>
          if bool_decide (s_ext target = ulit ".fc") then _stream_fc_as_wav data
          else
            let file_size := Z.of_nat (length data) in
            let mime_type :=
              or_else (default [] (guess_type (ulit "uploads/" ++ s_filename target)))
                      (ulit "application/octet-stream") in
            let '(start, end_) := range_bounds range_header file_size in
            let length := end_ - start + 1 in
            let status := stream_status range_header in
            let headers :=
              [("Content-Type", HMime mime_type);
               ("Content-Length", HInt length);
               ("Content-Range", HRange start end_ file_size);
               ("Accept-Ranges", HText "bytes");
               ("Cache-Control", HText "no-cache")]%string ++ _cors in
            if start <? 0 then Raise OSError
            else
              let f := drop (Z.to_nat start) data in
              Ok (SendBytes status headers (send_chunks (S (List.length f)) f length))
      end
  end.
End Stream.

(** ** Vocabulary of the properties *)

(** A part the decoder has to ignore: an empty part, the closing
    sequence, or a part without a blank line. *)
Definition malformed (part : bytes) : bool :=
  bool_decide (part ∈ [[]; blit "--"; blit "--" ++ CRLF])
  || negb (contains CRLFCRLF part).

(** A part that is taken as the file: it is read and its disposition
    declares a non-empty file name. *)
Definition is_file_part (part : bytes) : bool :=
  match read_part part with
  | Some v => truthy_opt (pv_fn v)
  | None => false
  end.

Definition no_parse_state : parse_state := ParseState ∅ None None.

(** [rq] is a multipart upload: its content type names the boundary, and
    [body] is what the handler reads from the connection. *)
Definition upload_of (rq : post_request) (boundary body : bytes) : Prop :=
  contains (hlit "multipart/form-data") (default [] (hdr_content_type rq)) = true
  ∧ find_boundary (split_lit (default [] (hdr_content_type rq)) (hlit ";")) = Some boundary
  ∧ truthy boundary = true
  ∧ ∃ n, content_length rq = Ok n ∧ body = rfile_read n (rfile rq).

(** ** Sample requests *)

Definition DQUOTE : byte := x22.

(** The header block of a part, as a browser writes it. *)
Definition part_headers (name : string) (file : option string) : bytes :=
  blit "Content-Disposition: form-data; name=" ++ [DQUOTE] ++ blit name ++ [DQUOTE]
  ++ match file with
     | Some f =>
         blit "; filename=" ++ [DQUOTE] ++ blit f ++ [DQUOTE] ++ CRLF
         ++ blit "Content-Type: application/octet-stream"
     | None => []
     end.

(** A part as it stands between two delimiters. *)
Definition form_part (name : string) (file : option string) (content : bytes) : bytes :=
  CRLF ++ part_headers name file ++ CRLFCRLF ++ content ++ CRLF.

(** A body with the given parts and the closing delimiter. *)
Definition form_body (boundary : bytes) (parts : list bytes) : bytes :=
  (parts ≫= fun p => blit "--" ++ boundary ++ p) ++ blit "--" ++ boundary ++ blit "--" ++ CRLF.

(** Two file parts, [a.mp3] with content [AAA] and [b.mp3] with [BBB]. *)
Definition first_file : bytes := form_part "file" (Some "a.mp3"%string) (blit "AAA").
Definition second_file : bytes := form_part "file" (Some "b.mp3"%string) (blit "BBB").
Definition two_files_body : bytes := form_body (blit "XyZ") [first_file; second_file].

(** A POST request with the given body and boundary [XyZ]. *)
Definition post_of (body : bytes) : post_request :=
  {| hdr_content_type := Some (hlit "multipart/form-data; boundary=XyZ");
     hdr_content_length :=
       Some (hlit (NilZero.string_of_uint (Nat.to_uint (length body))));
     rfile := body |}.

Definition sample_fresh : fresh :=
  {| uuid4 := ulit "0b5cfa0e-6f0b-4e53-9a3c-3f1f2d1c9a77";
     utcnow := ulit "2024-05-01T12:00:00.000000Z" |}.

Definition empty_disk : disk := Disk None ∅.

(** An upload whose file part has no content. *)
Definition empty_file : bytes := form_part "file" (Some "a.mp3"%string) [].
Definition empty_file_body : bytes :=
  form_body (blit "XyZ") [form_part "title" None (blit "Tune"); empty_file].

(** An upload of the two bytes [A], LF under the name [a.mp3]. *)
Definition newline_file_body : bytes :=
  form_body (blit "XyZ")
    [form_part "title" None (blit "Tune");
     form_part "file" (Some "a.mp3"%string) (blit "A" ++ [LF])].

(** A catalog of one record and its backing file. *)
Definition song_of (name ext : string) (data : bytes) : song :=
  {| s_id := ulit name; s_title := ulit "Tune"; s_artist := ulit "Unknown Artist";
     s_comment := []; s_filename := ulit name ++ ulit ext; s_ext := ulit ext;
     s_size := Z.of_nat (length data); s_uploaded := utcnow sample_fresh |}.

Definition disk_of (name ext : string) (data : bytes) : disk :=
  Disk (Some (json_dumps [song_of name ext data]))
       {[ s_filename (song_of name ext data) := data ]}.

(** A raw-sample file that stops in the middle of its header. *)
Definition short_fc : bytes := [x44; xac; x00].

(** The upload of [short_fc] under the name [beep.fc]. *)
Definition short_fc_body : bytes :=
  form_body (blit "XyZ") [form_part "file" (Some "beep.fc"%string) short_fc].

(** A raw-sample file for 44100 Hz and 40000 channels, without samples. *)
Definition wide_fc : bytes := [x44; xac; x00; x00; x40; x9c].

(** The field of [len] bytes at offset [off] of a response body, and its
    value as a little-endian number. *)
Definition bytes_at (off len : nat) (out : bytes) : bytes := take len (drop off out).
Definition uint_at (off len : nat) (out : bytes) : Z := from_le (bytes_at off len out).

(** [out] is a 44-byte RIFF/WAVE header for 16-bit PCM with sample rate
    [R] and [C] channels, followed by the samples [pcm]. *)
Definition riff_wave (R C : Z) (pcm out : bytes) : Prop :=
  length out = (44 + length pcm)%nat
  ∧ bytes_at 0 4 out = blit "RIFF"
  ∧ uint_at 4 4 out = 36 + Z.of_nat (length pcm)      (* chunkSize *)
  ∧ bytes_at 8 4 out = blit "WAVE"
  ∧ bytes_at 12 4 out = blit "fmt "
  ∧ uint_at 16 4 out = 16
  ∧ uint_at 20 2 out = 1                              (* format tag: PCM *)
  ∧ uint_at 22 2 out = C
  ∧ uint_at 24 4 out = R
  ∧ uint_at 28 4 out = R * C * 2                      (* byteRate *)
  ∧ uint_at 32 2 out = C * 2                          (* blockAlign *)
  ∧ uint_at 34 2 out = 16                             (* bits per sample *)
  ∧ bytes_at 36 4 out = blit "data"
  ∧ uint_at 40 4 out = Z.of_nat (length pcm)          (* dataSize *)
  ∧ drop 44 out = pcm.

(** The transcoder answers a file made of the header [hdr] and the samples
    [pcm] with status 200, the RIFF/WAVE header for the rate and the
    channels that [hdr] gives, and the samples. *)
Definition sends_riff_wave (hdr pcm : bytes) : Prop :=
  ∃ out,
    _stream_fc_as_wav (hdr ++ pcm)
    = Ok (SendBytes 200 [("Content-Type", HText "audio/wav")]%string out)
    ∧ riff_wave (from_le (take 4 hdr)) (from_le (drop 4 hdr)) pcm out.

(** The header of a raw-sample file for 44100 Hz and 2 channels, and four
    bytes of samples. *)
Definition stereo_hdr : bytes := [x44; xac; x00; x00; x02; x00].
Definition four_samples : bytes := [x01; x00; xff; x7f].

(** Ten bytes of an MP3 file. *)
Definition ten_bytes : bytes := blit "0123456789".

(** The parts [ps] joined by the delimiter [sep], up to the rest [last]. *)
Definition joined (sep : bytes) (ps : list bytes) (last : bytes) : bytes :=
  foldr (fun p acc => p ++ sep ++ acc) last ps.

(** The delimiter does not occur in [p] followed by the delimiter before
    the end of [p]. *)
Definition delimiter_free (sep p : bytes) : Prop :=
  find sep (p ++ sep) = Some (length p).

(** What the header block [headers_raw] of a part declares: its [name]
    and its [filename]. *)
Definition disposition_vars (headers_raw : bytes) : str * option str :=
  foldl scan_segment ([], None)
        (split_lit (find_disposition (splitlines (decode headers_raw))) (ulit ";")).

(** A content that the decoder returns as it is: it does not end with a
    carriage return, a line feed or a hyphen. *)
Definition keeps_tail (content : bytes) : Prop :=
  ∀ x, last content = Some x → x ∉ [CR; LF; x2d].

(** ** The query string, [_api_songs], [_api_random], [_serve_file] *)

(** [qs.get(key, [""])[0]] on the result of [parse_qs], a dictionary of
    lists that are never empty: a first value and the others. *)
Definition qs_first (qs : gmap str (str * list str)) (key : string) : str :=
  (default ([], []) (qs !! ulit key)).1.

(** What the handlers of GET and OPTIONS send. *)
Inductive reply : Type :=
  | Reply (r : response)
  | SendSongs (songs : list song)   (* send_json(songs), status 200 *)
  | SendSong (s : song)             (* send_json(song), status 200 *)
  | NoContent (headers : list (string * header_value))   (* status 204 *).

Section Search.
(** [str.lower] on all of Unicode, a table of the interpreter. *)
Variable str_lower : str -> str.

(** The test of the comprehension in [_api_songs]. *)
Definition matches (q : str) (s : song) : bool :=
  contains q (str_lower (s_title s)) || contains q (str_lower (s_artist s)).

Definition _api_songs (qs : gmap str (str * list str)) (d : disk) : reply :=
  let songs := get_songs d in
  let q := str_lower (qs_first qs "q") in
  let songs := if truthy q then filter (fun s => matches q s = true) songs else songs in
  SendSongs songs.
End Search.

(** [random.choice(pool)] on a pool that is not empty; [r] is the number
    the generator draws, [s0] the first element of the pool. *)
Definition random_choice {A : Type} (r : nat) (s0 : A) (pool : list A) : A :=
  default s0 (pool !! (r `mod` length pool)%nat).

Definition _api_random (qs : gmap str (str * list str)) (r : nat) (d : disk) : reply :=
  let exclude := qs_first qs "exclude" in
  let songs := get_songs d in
  let others := filter (fun s => s_id s ≠ exclude) songs in
  let pool := if truthy others then others else songs in
  match pool with
  | [] => Reply (send_error_json (ulit "No songs available") 404)
  | s0 :: _ => SendSong (random_choice r s0 pool)
  end.

(** [file] is the content of the file at [fpath], if it exists. *)
Definition _serve_file (file : option bytes) (mime : string) : response :=
  match file with
  | None =>
      send_error_json (ulit "index.html not found - put it next to this script") 404
  | Some data =>
      SendBytes 200 [("Content-Type", HText mime);
                     ("Content-Length", HInt (Z.of_nat (length data)))]%string data
  end.

(** ** Routing: [do_OPTIONS], [do_GET], [do_POST], [do_DELETE] *)

(** What a GET request carries: the path and the query of its target as
    [urlparse] and [parse_qs] give them, and its Range header. *)
Record get_request : Type := GetRequest {
  url_path : str;
  url_qs : gmap str (str * list str);
  hdr_range : option hstr
}.

Definition do_OPTIONS : reply := NoContent _cors.

Section Routing.
Variable guess_type : str -> option str.
Variable str_lower : str -> str.
(** The file [index.html] next to the script, if it exists. *)
Variable index_html : option bytes.

Definition do_GET (rq : get_request) (r : nat) (d : disk) : result reply :=
  let path := or_else (rstrip (one_of [SLASH]) (url_path rq)) (ulit "/") in
  let qs := url_qs rq in
  if bool_decide (path = ulit "/") || bool_decide (path = ulit "/index.html") then
    Ok (Reply (_serve_file index_html "text/html"))
  else if bool_decide (path = ulit "/api/songs") then Ok (_api_songs str_lower qs d)
  else if bool_decide (path = ulit "/api/random") then Ok (_api_random qs r d)
  else if startswith path (ulit "/stream/") then
    sent ← _stream guess_type (hdr_range rq) (drop 8 path) d;
    Ok (Reply sent)
  else Ok (Reply (send_error_json (ulit "Not found") 404)).
End Routing.

(** [path] is [urlparse(self.path).path]. *)
Definition do_POST (path : str) (rq : post_request) (fr : fresh) (d : disk)
  : result (response * disk) :=
  let path := rstrip (one_of [SLASH]) path in
  if bool_decide (path = ulit "/api/upload") then _api_upload rq fr d
  else Ok (send_error_json (ulit "Not found") 404, d).

Definition do_DELETE (path : str) (d : disk) : response * disk :=
  let path := rstrip (one_of [SLASH]) path in
  if startswith path (ulit "/api/songs/") then
    let song_id := default [] (last (split_lit path (ulit "/"))) in
    _api_delete song_id d
  else (send_error_json (ulit "Not found") 404, d).

(** ** Vocabulary of the further properties *)

(** Every record of the catalog has its backing file, and no two records
    share one. *)
Definition well_kept (d : disk) : Prop :=
  NoDup (s_filename <$> get_songs d)
  ∧ ∀ s, s ∈ get_songs d → is_Some (uploads d !! s_filename s).

(** A decimal digit, and the value of a string of digits. *)
Definition is_digit (c : ascii) : bool := (48 <=? code c) && (code c <=? 57).

Definition decimal (s : hstr) : Z := foldl (fun acc c => 10 * acc + (code c - 48)) 0 s.

(** A bound of a range as it is written: nothing, or digits. *)
Definition bound_or (dflt : Z) (s : hstr) : Z :=
  match s with
  | [] => dflt
  | _ :: _ => decimal s
  end.

(** The raw-sample file [data] has its header and values that fit the
    fields of a RIFF/WAVE header. *)
Definition fits_wav (data : bytes) : Prop :=
  (6 ≤ length data)%nat
  ∧ from_le (take 2 (drop 4 data)) * 2 ≤ 65535
  ∧ from_le (take 4 data) * from_le (take 2 (drop 4 data)) * 2 ≤ 4294967295
  ∧ 30 + Z.of_nat (length data) ≤ 4294967295.

(** What the decoder's loop keeps true of the file it has extracted. *)
Definition file_ok (st : parse_state) : Prop :=
  (file_data st = None ↔ filename st = None)
  ∧ filename st ≠ Some []
  ∧ ∀ data x, file_data st = Some data → last data = Some x → x ≠ CR ∧ x ≠ LF.

(** The part stores a text field under the name [n]. *)
Definition stores_field (part : bytes) (n : str) : bool :=
  match read_part part with
  | Some v => negb (truthy_opt (pv_fn v)) && truthy (pv_name v) && bool_decide (pv_name v = n)
  | None => false
  end.

(** A body with the fields [title] (twice) and [artist]. *)
Definition fields_body : bytes :=
  form_body (blit "XyZ")
    [form_part "title" None (blit "First");
     form_part "artist" None (blit "Me");
     form_part "title" None (blit "Second")].

(** The headers of a response of [_stream] that does not transcode. *)
Definition mime_of (guess_type : str -> option str) (target : song) : str :=
  or_else (default [] (guess_type (ulit "uploads/" ++ s_filename target)))
          (ulit "application/octet-stream").

Definition stream_headers (mime : str) (first last total : Z)
  : list (string * header_value) :=
  [("Content-Type", HMime mime);
   ("Content-Length", HInt (last - first + 1));
   ("Content-Range", HRange first last total);
   ("Accept-Ranges", HText "bytes");
   ("Cache-Control", HText "no-cache")]%string ++ _cors.

(** The bytes of [data] from offset [first] to offset [last], both
    included. *)
Definition slice (first last : Z) (data : bytes) : bytes :=
  take (Z.to_nat (last - first + 1)) (drop (Z.to_nat first) data).

(** The header of the transcoder's response. *)
Definition wav_headers : list (string * header_value) :=
  [("Content-Type", HText "audio/wav")]%string.

(** An upload of ten bytes under the name [a.mp3]. *)
Definition ten_bytes_body : bytes :=
  form_body (blit "XyZ") [form_part "file" (Some "a.mp3"%string) ten_bytes].

(** * Properties *)

(** ** The models of the Python library on small inputs *)

Example decode_ascii : decode (blit "name") = ulit "name".
Proof. reflexivity. Qed.
Example decode_euro : decode (hx [0xE2; 0x82; 0xAC]%N) = [0x20AC%N].
Proof. reflexivity. Qed.
Example decode_truncated : decode (hx [0xE2; 0x82; 0x78]%N) = [REPLACEMENT; 0x78%N].
Proof. reflexivity. Qed.
Example decode_surrogate :
  decode (hx [0xED; 0xA0; 0x80]%N) = [REPLACEMENT; REPLACEMENT; REPLACEMENT].
Proof. reflexivity. Qed.
Example decode_resync :
  decode (hx [0xE2; 0x82; 0xE2; 0x82; 0xAC]%N) = [REPLACEMENT; 0x20AC%N].
Proof. reflexivity. Qed.
Example decode_f0_short : decode (hx [0xF0; 0x9F; 0x98; 0x78]%N) = [REPLACEMENT; 0x78%N].
Proof. reflexivity. Qed.
Example decode_above_max :
  decode (hx [0xF4; 0x90; 0x80; 0x80]%N)
  = [REPLACEMENT; REPLACEMENT; REPLACEMENT; REPLACEMENT].
Proof. reflexivity. Qed.
Example splitlines_ex :
  splitlines [0x61; 0x0A; 0x62; 0x0D; 0x0A; 0x0D; 0x63; 0x0A]%N
  = [[0x61]; [0x62]; []; [0x63]]%N.
Proof. reflexivity. Qed.
Example lower_ex : lower (ulit "Content-DISPOSITION") = ulit "content-disposition".
Proof. reflexivity. Qed.
Example py_int_plain : py_int (hlit "10") = Ok 10.
Proof. reflexivity. Qed.
Example py_int_spaces : py_int (hlit " +1_000 ") = Ok 1000.
Proof. reflexivity. Qed.
Example py_int_bad : py_int (hlit "1__0") = Raise ValueError.
Proof. reflexivity. Qed.
Example py_int_empty : py_int [] = Raise ValueError.
Proof. reflexivity. Qed.
Example suffix_plain : path_suffix (ulit "a/b.MP3") = ulit ".MP3".
Proof. reflexivity. Qed.
Example suffix_dir : path_suffix (ulit "a.mp3/.") = ulit ".mp3".
Proof. reflexivity. Qed.
Example suffix_hidden : path_suffix (ulit ".mp3") = [].
Proof. reflexivity. Qed.
Example suffix_trailing_dot : path_suffix (ulit "a.") = [].
Proof. reflexivity. Qed.
Example suffix_last : path_suffix (ulit "a.b.c") = ulit ".c".
Proof. reflexivity. Qed.
Example suffix_parent : path_suffix (ulit "x/..") = [].
Proof. reflexivity. Qed.
Example unquote_ex : unquote (ulit "a%2Fb%zz%41") = ulit "a/b%zzA".
Proof. reflexivity. Qed.

(** ** Sequences *)

Section SeqFacts.
Context {A : Type} `{EqDecision A}.
Implicit Types s sep p : list A.

Lemma startswith_nil_r s : startswith s [] = true.
Proof. by destruct s. Qed.

Lemma startswith_length s p : startswith s p = true → (length p ≤ length s)%nat.
Proof.
  revert s. induction p as [|x p IH]; intros [|y s]; simpl; try lia; try done.
  intros [_ Hs]%andb_prop. apply IH in Hs. lia.
Qed.

Lemma find_unfold sep s :
  find sep s = if startswith s sep then Some 0%nat
               else match s with [] => None | _ :: s' => S <$> find sep s' end.
Proof. by destruct s. Qed.

Lemma find_lt sep s i : find sep s = Some i → (i + length sep ≤ length s)%nat.
Proof.
  revert i. induction s as [|y s IH]; intros i; rewrite find_unfold.
  - destruct (startswith [] sep) eqn:Hp; [|done].
    intros [= <-]. by apply startswith_length in Hp.
  - destruct (startswith (y :: s) sep) eqn:Hp.
    + intros [= <-]. by apply startswith_length in Hp.
    + destruct (find sep s) as [j|]; [|done].
      intros [= <-]. specialize (IH j eq_refl). simpl. lia.
Qed.

Lemma find_cons_is_Some sep x s : is_Some (find sep s) → is_Some (find sep (x :: s)).
Proof.
  intros [i Hi]. rewrite find_unfold. destruct (startswith (x :: s) sep); [by eexists|].
  rewrite Hi. by eexists.
Qed.

Lemma contains_drop sep n s : contains sep (drop n s) = true → contains sep s = true.
Proof.
  unfold contains. rewrite !bool_decide_eq_true.
  revert s. induction n as [|n IH]; intros [|x s]; simpl; try done.
  intros Hs. apply find_cons_is_Some. by apply IH.
Qed.

(** The loop of [split] does not depend on its fuel once there is one
    round per element. *)
Lemma split_loop_fuel sep n m s :
  sep ≠ [] → (length s ≤ n)%nat → (length s ≤ m)%nat →
  split_loop n sep s = split_loop m sep s.
Proof.
  intros Hsep. assert (0 < length sep)%nat by (destruct sep; [done|simpl; lia]).
  assert (∀ k s, length s = 0%nat → split_loop k sep s = [s]) as Hnil.
  { intros [|k] s' Hs'; [done|]. cbn [split_loop].
    destruct (find sep s') as [i|] eqn:Hf; [|done]. apply find_lt in Hf. lia. }
  revert m s. induction n as [|n IH]; intros m s Hn Hm.
  - rewrite !Hnil by lia. done.
  - destruct m as [|m]; [rewrite !Hnil by lia; done|].
    cbn [split_loop]. destruct (find sep s) as [i|] eqn:Hf; [|done].
    f_equal. pose proof (find_lt _ _ _ Hf).
    apply IH; rewrite length_drop; lia.
Qed.

(** [length s] rounds are enough for the loop of [split]. *)
Lemma split_loop_enough sep s n :
  sep ≠ [] → (length s ≤ n)%nat → split_loop n sep s = split_lit s sep.
Proof. intros. by apply split_loop_fuel. Qed.

Lemma split_loop_nonempty n sep s : split_loop n sep s ≠ [].
Proof. destruct n; simpl; [done|]. by destruct (find sep s). Qed.

Lemma split_Ok s sep : sep ≠ [] → split s sep = Ok (split_lit s sep).
Proof. by destruct sep. Qed.
End SeqFacts.

(** ** The multipart decoder *)

Lemma read_part_malformed part : malformed part = true → read_part part = None.
Proof.
  unfold malformed, read_part. intros Hm.
  destruct (bool_decide (part ∈ _)); [done|]. simpl in Hm.
  apply negb_true_iff in Hm.
  assert (contains CRLFCRLF (if startswith part CRLF then drop 2 part else part) = false)
    as ->; [|done].
  destruct (startswith part CRLF); [|done].
  destruct (contains CRLFCRLF (drop 2 part)) eqn:Hc; [|done].
  apply contains_drop in Hc. congruence.
Qed.

Lemma parse_parts_app pre post st :
  parse_parts (pre ++ post) st = parse_parts post (parse_parts pre st).
Proof.
  revert st. induction pre as [|p pre IH]; intros st; [done|].
  simpl. by destruct (read_part p).
Qed.

Lemma parse_parts_malformed parts st :
  parse_parts (filter (fun p => malformed p = false) parts) st = parse_parts parts st.
Proof.
  revert st. induction parts as [|p parts IH]; intros st; [done|].
  rewrite filter_cons. destruct (malformed p) eqn:Hm.
  - rewrite decide_False by done. simpl.
    by rewrite (read_part_malformed p Hm).
  - rewrite decide_True by done. simpl. by destruct (read_part p).
Qed.

(** Parts that are not file parts leave the extracted file as it is. *)
Lemma parse_parts_no_file parts st :
  Forall (fun q => is_file_part q = false) parts →
  file_data (parse_parts parts st) = file_data st
  ∧ filename (parse_parts parts st) = filename st.
Proof.
  intros Hall. revert st. induction Hall as [|q parts Hq _ IH]; intros st; [done|].
  simpl. unfold is_file_part in Hq.
  destruct (read_part q) as [v|]; [|apply IH].
  destruct (IH (store_part st v)) as [-> ->].
  unfold store_part. rewrite Hq. by destruct (truthy (pv_name v)).
Qed.

Lemma store_part_file st v :
  truthy_opt (pv_fn v) = true →
  file_data (store_part st v) = Some (pv_content v)
  ∧ filename (store_part st v) = pv_fn v.
Proof. intros Hfn. unfold store_part. by rewrite Hfn. Qed.

Lemma delimiter_nonempty (boundary : bytes) : blit "--" ++ boundary ≠ [].
Proof. done. Qed.

Lemma parse_multipart_unfold body boundary :
  _parse_multipart body boundary
  = Ok (parse_parts (drop 1 (split_lit body (blit "--" ++ boundary))) no_parse_state).
Proof. unfold _parse_multipart. by rewrite split_Ok. Qed.

(** C9.  The decoder returns for every body and every boundary, and its
    result is the one it computes from the parts that are not malformed:
    empty parts, the closing sequence and parts without a blank line leave
    no trace in the fields or in the file. *)
Theorem parse_multipart_total body boundary :
  ∃ parts st,
    split body (blit "--" ++ boundary) = Ok parts
    ∧ _parse_multipart body boundary = Ok st
    ∧ st = parse_parts (filter (fun p => malformed p = false) (drop 1 parts))
                       no_parse_state.
Proof.
  eexists _, _. split; [by apply split_Ok|]. split.
  - apply parse_multipart_unfold.
  - by rewrite parse_parts_malformed.
Qed.

(** C1 (as amended).  When the body has file parts, the decoder returns
    the content and the declared file name of the last of them; the file
    parts before it are dropped. *)
Theorem last_file_part_kept body boundary parts pre p post v :
  split body (blit "--" ++ boundary) = Ok parts →
  drop 1 parts = pre ++ p :: post →
  read_part p = Some v →
  truthy_opt (pv_fn v) = true →
  Forall (fun q => is_file_part q = false) post →
  ∃ st, _parse_multipart body boundary = Ok st
        ∧ file_data st = Some (pv_content v)
        ∧ filename st = pv_fn v.
Proof.
  intros Hsplit Hparts Hp Hfn Hpost.
  eexists. split; [apply parse_multipart_unfold|].
  assert (parts = split_lit body (blit "--" ++ boundary)) as <-.
  { rewrite split_Ok in Hsplit by done. congruence. }
  rewrite Hparts, parse_parts_app. simpl. rewrite Hp.
  destruct (parse_parts_no_file post (store_part (parse_parts pre no_parse_state) v) Hpost)
    as [-> ->].
  by apply store_part_file.
Qed.

(** C1 (as stated) fails: of two file parts it is the second whose content
    and name are returned, not the first. *)
Lemma first_file_part_not_kept :
  ¬ (∀ body boundary parts pre p post v st,
       split body (blit "--" ++ boundary) = Ok parts →
       drop 1 parts = pre ++ p :: post →
       Forall (fun q => is_file_part q = false) pre →
       read_part p = Some v →
       truthy_opt (pv_fn v) = true →
       Exists (fun q => is_file_part q = true) post →
       _parse_multipart body boundary = Ok st →
       file_data st = Some (pv_content v) ∧ filename st = pv_fn v).
Proof.
  intros Hclaim.
  destruct (Hclaim two_files_body (blit "XyZ")
              [[]; first_file; second_file; blit "--" ++ CRLF]
              [] first_file [second_file; blit "--" ++ CRLF]
              (PartVars (ulit "file") (Some (ulit "a.mp3")) (blit "AAA"))
              (ParseState ∅ (Some (blit "BBB")) (Some (ulit "b.mp3"))))
    as [Hdata _]; try (vm_compute; reflexivity).
  - constructor.
  - apply Exists_cons_hd. vm_compute. reflexivity.
  - vm_compute in Hdata. discriminate Hdata.
Qed.

Lemma last_file_part_kept_witness :
  ∃ st, _parse_multipart two_files_body (blit "XyZ") = Ok st
        ∧ file_data st = Some (blit "BBB")
        ∧ filename st = Some (ulit "b.mp3").
Proof.
  apply (last_file_part_kept two_files_body (blit "XyZ")
           [[]; first_file; second_file; blit "--" ++ CRLF]
           [first_file] second_file [blit "--" ++ CRLF]
           (PartVars (ulit "file") (Some (ulit "b.mp3")) (blit "BBB"))).
  - vm_compute. reflexivity.
  - vm_compute. reflexivity.
  - vm_compute. reflexivity.
  - vm_compute. reflexivity.
  - constructor; [vm_compute; reflexivity | constructor].
Defined.

(** ** Bodies given by their parts *)

Section Joined.
Context {A : Type} `{EqDecision A}.
Implicit Types s sep p : list A.

Lemma startswith_app p t : startswith (p ++ t) p = true.
Proof. induction p as [|x p IH]; [apply startswith_nil_r|]. simpl. by rewrite bool_decide_eq_true_2. Qed.

Lemma startswith_app_l s t p :
  (length p ≤ length s)%nat → startswith (s ++ t) p = startswith s p.
Proof.
  revert s. induction p as [|x p IH]; intros s Hlen.
  - by rewrite !startswith_nil_r.
  - destruct s as [|y s]; simpl in *; [lia|]. rewrite IH by lia. done.
Qed.

Lemma find_app_first sep p rest :
  find sep (p ++ sep) = Some (length p) → find sep (p ++ sep ++ rest) = Some (length p).
Proof.
  induction p as [|x p IH]; intros Hfind.
  - rewrite find_unfold. simpl. by rewrite startswith_app.
  - rewrite find_unfold in Hfind. rewrite find_unfold.
    assert (startswith ((x :: p) ++ sep ++ rest) sep = startswith ((x :: p) ++ sep) sep) as ->.
    { rewrite app_assoc. apply startswith_app_l. rewrite length_app. lia. }
    destruct (startswith ((x :: p) ++ sep) sep); [done|].
    simpl in *. destruct (find sep (p ++ sep)) as [i|] eqn:Hi; [|done].
    injection Hfind as ->. by rewrite IH.
Qed.
End Joined.

Lemma split_loop_joined sep ps last fuel :
  sep ≠ [] →
  Forall (delimiter_free sep) ps →
  find sep last = None →
  (length (joined sep ps last) ≤ fuel)%nat →
  split_loop fuel sep (joined sep ps last) = ps ++ [last].
Proof.
  intros Hsep Hps Hlast. revert fuel.
  induction Hps as [|p ps Hp _ IH]; intros fuel Hfuel; simpl in *.
  - destruct fuel; [done|]. simpl. by rewrite Hlast.
  - assert (0 < length sep)%nat by (destruct sep; [done|simpl; lia]).
    rewrite !length_app in Hfuel.
    destruct fuel as [|fuel]; [lia|]. cbn [split_loop].
    rewrite (find_app_first sep p _ Hp).
    rewrite take_app_length. f_equal.
    rewrite (app_assoc p sep), <- (length_app p sep), drop_app_length.
    apply IH. lia.
Qed.

Lemma form_body_joined boundary parts :
  form_body boundary parts
  = joined (blit "--" ++ boundary) ([] :: parts) (blit "--" ++ CRLF).
Proof.
  unfold form_body. cbn [joined foldr]. rewrite app_nil_l.
  induction parts as [|p parts IH].
  - simpl. done.
  - cbn [mbind list_bind foldr].
    change (foldr _ _ parts) with (joined (blit "--" ++ boundary) parts (blit "--" ++ CRLF)).
    rewrite <- (app_assoc _ (parts ≫= _)), IH. by rewrite <- !app_assoc.
Qed.

(** A body written from parts that are free of the delimiter decodes to
    what its parts give, in their order. *)
Lemma parse_multipart_form_body boundary parts :
  Forall (delimiter_free (blit "--" ++ boundary)) parts →
  find (blit "--" ++ boundary) (blit "--" ++ CRLF) = None →
  _parse_multipart (form_body boundary parts) boundary
  = Ok (parse_parts parts no_parse_state).
Proof.
  intros Hparts Hlast. rewrite parse_multipart_unfold. f_equal.
  unfold split_lit. rewrite form_body_joined.
  rewrite split_loop_joined; [| done | | done | done].
  - change (drop 1 (([] :: parts) ++ [blit "--" ++ CRLF])) with (parts ++ [blit "--" ++ CRLF]).
    rewrite parse_parts_app. done.
  - constructor; [|done]. unfold delimiter_free. rewrite find_unfold, app_nil_l.
    by rewrite <- (app_nil_r (blit "--" ++ boundary)) at 1; rewrite startswith_app.
Qed.

(** ** Parts with a clean content *)

Section Strip.
Context {A : Type} `{EqDecision A}.
Implicit Types s t : list A.

Lemma lstrip_app_all chars t s : Forall (fun x => chars x = true) t → lstrip chars (t ++ s) = lstrip chars s.
Proof. induction 1 as [|x t Hx _ IH]; [done|]. simpl. by rewrite Hx. Qed.

Lemma lstrip_head chars s :
  (∀ x, head s = Some x → chars x = false) → lstrip chars s = s.
Proof. destruct s as [|x s]; [done|]. intros Hx. simpl. by rewrite (Hx x). Qed.

Lemma rstrip_app_keep chars s t :
  (∀ x, last s = Some x → chars x = false) →
  Forall (fun x => chars x = true) t →
  rstrip chars (s ++ t) = s.
Proof.
  intros Hs Ht. unfold rstrip. rewrite reverse_app, lstrip_app_all.
  - rewrite lstrip_head; [apply reverse_involutive|].
    intros x Hx. apply Hs. by rewrite <- head_reverse.
  - by apply Forall_reverse.
Qed.

Lemma rstrip_keep chars s :
  (∀ x, last s = Some x → chars x = false) → rstrip chars s = s.
Proof. intros Hs. rewrite <- (app_nil_r s) at 1. by apply rstrip_app_keep. Qed.
End Strip.

Lemma keeps_tail_crlf content x :
  keeps_tail content → last content = Some x → one_of CRLF x = false.
Proof.
  intros Hk Hx. apply bool_decide_eq_false_2. intros Hin. apply (Hk x Hx).
  unfold CRLF in Hin. rewrite !elem_of_cons in Hin. rewrite !elem_of_cons. tauto.
Qed.

Lemma keeps_tail_hyphen content x :
  keeps_tail content → last content = Some x → one_of (blit "--") x = false.
Proof.
  intros Hk Hx. apply bool_decide_eq_false_2. intros Hin. apply (Hk x Hx).
  change (blit "--") with [x2d; x2d] in Hin. rewrite !elem_of_cons in Hin.
  rewrite !elem_of_cons. tauto.
Qed.

Lemma strip_framing content :
  keeps_tail content →
  rstrip (one_of CRLF) (rstrip (one_of (blit "--")) (rstrip (one_of CRLF) (content ++ CRLF)))
  = content.
Proof.
  intros Hk. rewrite rstrip_app_keep.
  - rewrite (rstrip_keep (one_of (blit "--")) content)
      by (intros x; by apply keeps_tail_hyphen).
    apply rstrip_keep. intros x. by apply keeps_tail_crlf.
  - intros x. by apply keeps_tail_crlf.
  - apply Forall_forall. intros x Hx. by apply bool_decide_eq_true_2.
Qed.

(** A part in the usual form, with a header block that has no blank line
    and a content that [keeps_tail], is read as what its headers declare
    and its content. *)
Lemma read_part_form headers_raw content :
  delimiter_free CRLFCRLF headers_raw →
  keeps_tail content →
  read_part (CRLF ++ headers_raw ++ CRLFCRLF ++ content ++ CRLF)
  = Some (PartVars (disposition_vars headers_raw).1 (disposition_vars headers_raw).2
                   content).
Proof.
  intros Hh Hk. unfold read_part.
  rewrite bool_decide_eq_false_2.
  2:{ intros Hin.
      repeat (apply elem_of_cons in Hin as [Hin|Hin]);
        try (apply (f_equal length) in Hin; rewrite !length_app in Hin; simpl in Hin; lia).
      by apply elem_of_nil in Hin. }
  rewrite startswith_app. rewrite (drop_app_length' CRLF) by done.
  pose proof (find_app_first CRLFCRLF headers_raw (content ++ CRLF) Hh) as Hfind.
  unfold contains, partition. rewrite Hfind.
  rewrite bool_decide_eq_true_2 by by eexists. cbn [negb].
  rewrite take_app_length.
  rewrite (app_assoc headers_raw CRLFCRLF), <- (length_app headers_raw CRLFCRLF),
    drop_app_length.
  rewrite strip_framing by done.
  fold (disposition_vars headers_raw). by destruct (disposition_vars headers_raw).
Qed.

(** ** Upload *)

Lemma bind_Ok {A B} (a : A) (k : A → result B) : Ok a ≫= k = k a.
Proof. done. Qed.




Lemma api_upload_stored rq fr d boundary body parsed data fn :
  upload_of rq boundary body →
  _parse_multipart body boundary = Ok parsed →
  file_data parsed = Some data → truthy data = true →
  filename parsed = Some fn → truthy fn = true →
  lower (path_suffix fn) ∈ ALLOWED_EXTS →
  ∃ meta d',
    _api_upload rq fr d = Ok (send_json (JUploaded meta) 201, d')
    ∧ get_songs d' = get_songs d ++ [meta]
    ∧ uploads d' = <[s_filename meta := data]> (uploads d)
    ∧ s_id meta = uuid4 fr
    ∧ s_title meta = or_else (field (fields parsed) "title") (ulit "Unknown Title")
    ∧ s_artist meta = or_else (field (fields parsed) "artist") (ulit "Unknown Artist")
    ∧ s_comment meta = field (fields parsed) "comment"
    ∧ s_filename meta = uuid4 fr ++ lower (path_suffix fn)
    ∧ s_size meta = Z.of_nat (length data).
Proof.
  intros (Hct & Hb & Hne & n & Hlen & ->) Hparsed Hdata Hdne Hfn Hfne Hext.
  eexists _, _. split.
  - unfold _api_upload. cbv zeta. rewrite Hct, Hb. cbn [negb truthy_opt default from_option id].
    rewrite Hne. cbn [negb]. rewrite Hlen, bind_Ok, Hparsed, bind_Ok.
    rewrite Hdata, Hfn. cbn [negb truthy_opt default from_option id orb].
    rewrite Hdne, Hfne. cbn [negb orb].
    rewrite bool_decide_eq_false_2 by (intros Hn; by apply Hn).
    reflexivity.
  - by repeat split.
Qed.

(** An upload of one file part named [a.mp3] whose content does not end
    with a carriage return, a line feed or a hyphen, and does not hold the
    delimiter: the catalog gets exactly one more record, with the size of
    the content, and the content is stored as it is. *)
Lemma api_upload_keeps_content rq fr d boundary content :
  upload_of rq boundary
            (form_body boundary [form_part "file" (Some "a.mp3"%string) content]) →
  find (blit "--" ++ boundary) (blit "--" ++ CRLF) = None →
  delimiter_free (blit "--" ++ boundary) (form_part "file" (Some "a.mp3"%string) content) →
  content ≠ [] →
  keeps_tail content →
  ∃ meta d',
    _api_upload rq fr d = Ok (send_json (JUploaded meta) 201, d')
    ∧ get_songs d' = get_songs d ++ [meta]
    ∧ s_size meta = Z.of_nat (length content)
    ∧ uploads d' !! s_filename meta = Some content.
Proof.
  intros Hup Hlast Hfree Hne Hk.
  pose proof (parse_multipart_form_body boundary
                [form_part "file" (Some "a.mp3"%string) content]
                ltac:(by constructor) Hlast) as Hparse.
  cbn [parse_parts] in Hparse. unfold form_part in Hparse at 2.
  rewrite read_part_form in Hparse by (done || by vm_compute).
  assert (disposition_vars (part_headers "file" (Some "a.mp3"%string))
          = (ulit "file", Some (ulit "a.mp3"))) as Hvars by (vm_compute; reflexivity).
  rewrite Hvars in Hparse. cbn [fst snd] in Hparse.
  destruct (api_upload_stored rq fr d boundary _ _ content (ulit "a.mp3") Hup Hparse)
    as (meta & d' & Hok & Hsongs & Hfiles & _ & _ & _ & _ & _ & Hsize).
  - reflexivity.
  - by destruct content.
  - reflexivity.
  - reflexivity.
  - by vm_compute.
  - exists meta, d'. repeat split; try done.
    rewrite Hfiles. apply lookup_insert_eq.
Qed.

(** C2.  The upload of the two bytes [A], LF under the name [a.mp3] is
    accepted, and the listing then holds exactly one record; the file that
    was stored has lost its last byte, and the record gives the size 1,
    not 2. *)
Theorem upload_truncates_trailing_newline :
  ∃ meta d,
    _api_upload (post_of newline_file_body) sample_fresh empty_disk
    = Ok (send_json (JUploaded meta) 201, d)
    ∧ get_songs d = [meta]
    ∧ uploads d !! s_filename meta = Some (blit "A")
    ∧ s_size meta = 1.
Proof. eexists _, _. split; [vm_compute; reflexivity|]. by vm_compute. Qed.

(** ** The catalog store *)

Lemma load_save songs d : load_db (save_db songs d) = songs.
Proof. done. Qed.

Lemma find_song_None song_id songs :
  find_song song_id songs = None ↔ song_id ∉ s_id <$> songs.
Proof.
  unfold find_song. induction songs as [|s songs IH]; simpl.
  - split; [intros _; apply not_elem_of_nil|done].
  - rewrite filter_cons, not_elem_of_cons. destruct (decide (s_id s = song_id)) as [Heq|Hne].
    + simpl. split; [done|]. intros [Hne _]. by destruct Hne.
    + rewrite IH. split; [by intros ?|by intros [_ ?]].
Qed.

Lemma find_song_Some song_id songs target :
  find_song song_id songs = Some target → target ∈ songs ∧ s_id target = song_id.
Proof.
  unfold find_song. intros Hhd.
  assert (target ∈ filter (fun s => s_id s = song_id) songs) as Hin.
  { destruct (filter _ songs); [done|]. injection Hhd as ->. apply list_elem_of_here. }
  by apply list_elem_of_filter in Hin as [? ?].
Qed.

Lemma filter_other_ids song_id (songs : list song) :
  song_id ∉ s_id <$> filter (fun s => s_id s ≠ song_id) songs.
Proof.
  intros (s & Hid & Hin)%list_elem_of_fmap.
  apply list_elem_of_filter in Hin as [Hne _]. done.
Qed.

Lemma filter_shorter song_id (songs : list song) target :
  target ∈ songs → s_id target = song_id →
  length (filter (fun s => s_id s ≠ song_id) songs) ≠ length songs.
Proof.
  intros Hin Hid Hlen.
  induction songs as [|s songs IH]; [by apply elem_of_nil in Hin|].
  rewrite filter_cons in Hlen.
  pose proof (length_filter (fun s => s_id s ≠ song_id) songs) as Hle.
  destruct (decide (s_id s ≠ song_id)) as [Hne|Heq]; simpl in Hlen; [|lia].
  apply elem_of_cons in Hin as [->|Hin]; [done|].
  apply IH; [done|lia].
Qed.

Lemma delete_song_by_id_known song_id d target :
  target ∈ load_db d → s_id target = song_id →
  delete_song_by_id song_id d
  = (true, save_db (filter (fun s => s_id s ≠ song_id) (load_db d)) d).
Proof.
  intros Hin Hid. unfold delete_song_by_id. cbv zeta.
  rewrite bool_decide_eq_false_2; [done|]. by eapply filter_shorter.
Qed.

(** A record whose backing file is already gone is deleted all the same. *)
Example delete_without_file :
  _api_delete (ulit "s1") (Disk (Some (json_dumps [song_of "s1" ".mp3" ten_bytes])) ∅)
  = (send_json JOk 200, Disk (Some (json_dumps [])) ∅).
Proof. vm_compute. reflexivity. Qed.

(** Deleting the only record twice: 200, then 404. *)
Example delete_twice :
  let d1 := (_api_delete (ulit "s1") (disk_of "s1" ".mp3" ten_bytes)).2 in
  (_api_delete (ulit "s1") (disk_of "s1" ".mp3" ten_bytes)).1 = send_json JOk 200
  ∧ d1 = Disk (Some (json_dumps [])) ∅
  ∧ (_api_delete (ulit "s1") d1).1 = send_error_json (ulit "Not found") 404.
Proof. vm_compute. done. Qed.

(** C8.  Loading the catalog returns for every state of the disk: the
    empty list when [songs.json] is missing, the empty list when it cannot
    be parsed, and the persisted records otherwise. *)
Theorem load_db_never_fails d :
  match db_file d with
  | None => load_db d = []
  | Some (Garbled _) => load_db d = []
  | Some (Dumped songs) => load_db d = songs
  end.
Proof. unfold load_db. destruct (db_file d) as [[raw|songs]|]; done. Qed.

(** C7.  Deleting an id that no record has answers 404 and leaves the disk
    as it is.  Deleting an id that a record has answers 200, persists the
    catalog without the records of that id and leaves no backing file,
    whether there was one or not; the same request then answers 404. *)
Theorem api_delete_cases song_id d :
  if decide (song_id ∈ (s_id <$> get_songs d)) then
    ∃ target d1,
      target ∈ get_songs d ∧ s_id target = song_id
      ∧ _api_delete song_id d = (send_json JOk 200, d1)
      ∧ db_file d1 = Some (json_dumps (filter (fun s => s_id s ≠ song_id) (get_songs d)))
      ∧ (song_id ∉ (s_id <$> get_songs d1))
      ∧ uploads d1 = delete (s_filename target) (uploads d)
      ∧ uploads d1 !! s_filename target = None
      ∧ _api_delete song_id d1 = (send_error_json (ulit "Not found") 404, d1)
  else _api_delete song_id d = (send_error_json (ulit "Not found") 404, d).
Proof.
  destruct (decide _) as [Hknown|Hunknown].
  - destruct (find_song song_id (get_songs d)) as [target|] eqn:Hfind.
    2:{ apply find_song_None in Hfind. done. }
    destruct (find_song_Some _ _ _ Hfind) as [Hin Hid].
    pose proof (filter_other_ids song_id (get_songs d)) as Hgone.
    eexists target, _. split; [done|]. split; [done|]. split.
    { unfold _api_delete. rewrite Hfind. reflexivity. }
    rewrite (delete_song_by_id_known song_id d target Hin Hid). simpl.
    split; [done|]. split; [done|]. split; [done|].
    split; [apply lookup_delete_eq|].
    unfold _api_delete at 1. unfold get_songs at 1. simpl.
    apply find_song_None in Hgone. unfold get_songs, load_db in Hgone |- *.
    simpl. by rewrite Hgone.
  - apply find_song_None in Hunknown. unfold _api_delete. by rewrite Hunknown.
Qed.

(** ** Streaming *)

Lemma chunk_size_pos : (0 < Z.to_nat CHUNK_SIZE)%nat.
Proof. unfold CHUNK_SIZE. lia. Qed.

(** The copy loop has fuel for every file: it sends the file to its end. *)
Lemma copy_chunks_all fuel (f : bytes) :
  (length f < fuel)%nat → copy_chunks fuel f = f.
Proof.
  revert f. induction fuel as [|fuel IH]; intros f Hlen; [lia|].
  cbn [copy_chunks]. pose proof chunk_size_pos as Hc.
  pose proof (length_take f (Z.to_nat CHUNK_SIZE)) as Ht.
  destruct (take (Z.to_nat CHUNK_SIZE) f) as [|x chunk] eqn:Hchunk.
  - destruct f; [done|]. cbn [length] in Ht. lia.
  - cbn [truthy]. rewrite IH.
    + rewrite <- Hchunk. apply take_drop.
    + rewrite length_drop. cbn [length] in Ht. lia.
Qed.

(** So has the range loop: it sends [remaining] bytes from the offset, or
    what is left of the file if that is less. *)
Lemma send_chunks_all fuel (f : bytes) remaining :
  (length f < fuel)%nat → send_chunks fuel f remaining = take (Z.to_nat remaining) f.
Proof.
  revert f remaining. induction fuel as [|fuel IH]; intros f remaining Hlen; [lia|].
  cbn [send_chunks]. pose proof chunk_size_pos as Hc.
  destruct (0 <? remaining) eqn:Hrem.
  2:{ apply Z.ltb_ge in Hrem. by replace (Z.to_nat remaining) with 0%nat by lia. }
  apply Z.ltb_lt in Hrem.
  pose proof (length_take f (Z.to_nat (Z.min CHUNK_SIZE remaining))) as Ht.
  destruct (take (Z.to_nat (Z.min CHUNK_SIZE remaining)) f) as [|x chunk] eqn:Hchunk.
  - destruct f; [by rewrite take_nil|]. cbn [length] in Ht.
    assert (0 < Z.min CHUNK_SIZE remaining) by (unfold CHUNK_SIZE; lia). lia.
  - assert (0 < Z.min CHUNK_SIZE remaining) by (unfold CHUNK_SIZE; lia).
    cbn [truthy]. rewrite IH by (rewrite length_drop; cbn [length] in *; lia).
    remember (length (x :: chunk)) as k eqn:Hk.
    assert (x :: chunk = take k f) as ->.
    { rewrite <- Hchunk, Ht.
      destruct (decide (Z.to_nat (Z.min CHUNK_SIZE remaining) ≤ length f)%nat).
      - by rewrite Nat.min_l.
      - rewrite Nat.min_r by lia. rewrite !take_ge; [done|lia..]. }
    rewrite take_take_drop. f_equal. lia.
Qed.

(** *** Numbers in the header *)

Lemma from_le_nonneg b : 0 ≤ from_le b.
Proof. induction b as [|x b IH]; simpl; lia. Qed.

Lemma from_le_bound b : from_le b < 256 ^ Z.of_nat (length b).
Proof.
  induction b as [|x b IH]; [done|].
  cbn [from_le length]. rewrite Nat2Z.inj_succ, Z.pow_succ_r by lia.
  pose proof (Byte.to_N_bounded x). lia.
Qed.

Lemma byte_of_low v : Z.of_N (Byte.to_N (default x00 (Byte.of_N (Z.to_N (Z.land v 255)))))
                      = v `mod` 256.
Proof.
  assert (Z.land v 255 = v `mod` 256) as ->.
  { change 255 with (Z.ones 8). rewrite Z.land_ones by lia. done. }
  pose proof (Z.mod_pos_bound v 256 eq_refl).
  destruct (Byte.of_N (Z.to_N (v `mod` 256))) as [x|] eqn:Hx.
  - apply Byte.to_of_N in Hx. simpl. lia.
  - apply Byte.of_N_None_iff in Hx. lia.
Qed.

Lemma from_le_le_bytes n v :
  0 ≤ v < 256 ^ Z.of_nat n → from_le (le_bytes n v) = v.
Proof.
  revert v. induction n as [|n IH]; intros v Hv.
  - simpl in *. lia.
  - cbn [le_bytes from_le]. change 0xFF with 255. rewrite byte_of_low.
    rewrite Nat2Z.inj_succ, Z.pow_succ_r in Hv by lia.
    rewrite IH.
    + rewrite Z.shiftr_div_pow2 by lia. change (2 ^ 8) with 256.
      pose proof (Z.div_mod v 256). lia.
    + rewrite Z.shiftr_div_pow2 by lia. change (2 ^ 8) with 256.
      split; [apply Z.div_pos; lia|]. apply Z.div_lt_upper_bound; lia.
Qed.

Lemma length_le_bytes n v : length (le_bytes n v) = n.
Proof. revert v. induction n as [|n IH]; intros v; simpl; [done|]. by rewrite IH. Qed.

Lemma pack_I_Ok v : 0 ≤ v ≤ 4294967295 → pack_I v = Ok (le_bytes 4 v).
Proof.
  intros Hv. unfold pack_I.
  by rewrite (proj2 (Z.leb_le 0 v)), (proj2 (Z.leb_le v _)) by lia.
Qed.

Lemma pack_H_Ok v : 0 ≤ v ≤ 65535 → pack_H v = Ok (le_bytes 2 v).
Proof.
  intros Hv. unfold pack_H.
  by rewrite (proj2 (Z.leb_le 0 v)), (proj2 (Z.leb_le v _)) by lia.
Qed.

(** *** The transcoder *)

(** C5 (as stated) fails: a header that gives 40000 channels asks for a
    block alignment of 80000, which the 16-bit field cannot hold, and the
    transcoder raises instead of sending. *)
Lemma fc_as_wav_not_for_every_header :
  ¬ (∀ hdr pcm : bytes, length hdr = 6%nat → sends_riff_wave hdr pcm).
Proof.
  intros Hclaim. destruct (Hclaim wide_fc [] eq_refl) as (out & Hsent & _).
  vm_compute in Hsent. discriminate Hsent.
Qed.

(** The offsets of the fields in a header laid out as [pack_wav_header]
    lays it out. *)
Lemma wav_layout (f_chunk f_fmt_size f_tag f_channels f_rate f_byte_rate
                  f_align f_bits f_data pcm : bytes) :
  length f_chunk = 4%nat → length f_fmt_size = 4%nat → length f_tag = 2%nat →
  length f_channels = 2%nat → length f_rate = 4%nat → length f_byte_rate = 4%nat →
  length f_align = 2%nat → length f_bits = 2%nat → length f_data = 4%nat →
  let out := (blit "RIFF" ++ f_chunk ++ blit "WAVE" ++ blit "fmt " ++ f_fmt_size
              ++ f_tag ++ f_channels ++ f_rate ++ f_byte_rate ++ f_align ++ f_bits
              ++ blit "data" ++ f_data) ++ pcm in
  length out = (44 + length pcm)%nat
  ∧ bytes_at 0 4 out = blit "RIFF" ∧ bytes_at 4 4 out = f_chunk
  ∧ bytes_at 8 4 out = blit "WAVE" ∧ bytes_at 12 4 out = blit "fmt "
  ∧ bytes_at 16 4 out = f_fmt_size ∧ bytes_at 20 2 out = f_tag
  ∧ bytes_at 22 2 out = f_channels ∧ bytes_at 24 4 out = f_rate
  ∧ bytes_at 28 4 out = f_byte_rate ∧ bytes_at 32 2 out = f_align
  ∧ bytes_at 34 2 out = f_bits ∧ bytes_at 36 4 out = blit "data"
  ∧ bytes_at 40 4 out = f_data ∧ drop 44 out = pcm.
Proof.
  intros H1 H2 H3 H4 H5 H6 H7 H8 H9.
  repeat match goal with
         | H : length ?f = _ |- _ =>
             destruct f as [|? [|? [|? [|? [|? ?]]]]]; try discriminate H; clear H
         end.
  repeat split.
Qed.

(** C5 (as amended).  For a file whose 6-byte header gives the sample rate
    R and the channel count C, followed by K bytes of samples, such that
    C × 2 fits 16 bits and R × C × 2 and 36 + K fit 32 bits, the transcoder
    sends with status 200 the 44-byte RIFF/WAVE header with
    chunkSize = 36 + K, byteRate = R × C × 2, blockAlign = C × 2, format tag
    PCM, 16 bits per sample and dataSize = K, followed by the samples. *)
Theorem fc_as_wav_header (hdr pcm : bytes) :
  length hdr = 6%nat →
  from_le (drop 4 hdr) * 2 ≤ 65535 →
  from_le (take 4 hdr) * from_le (drop 4 hdr) * 2 ≤ 4294967295 →
  36 + Z.of_nat (length pcm) ≤ 4294967295 →
  sends_riff_wave hdr pcm.
Proof.
  intros Hlen HC HRC HK.
  set (R := from_le (take 4 hdr)) in *. set (C := from_le (drop 4 hdr)) in *.
  assert (0 ≤ R < 4294967296) as HR.
  { split; [apply from_le_nonneg|]. pose proof (from_le_bound (take 4 hdr)) as Hb.
    rewrite length_take, Hlen in Hb. exact Hb. }
  assert (0 ≤ C) as HC0 by apply from_le_nonneg.
  assert (0 ≤ R * C) by lia.
  unfold sends_riff_wave, _stream_fc_as_wav. cbv zeta.
  rewrite take_app_length', drop_app_length' by lia.
  rewrite (take_ge (drop 4 hdr)) by (rewrite length_drop; lia).
  fold R C. rewrite length_app, Hlen.
  replace (Z.of_nat (6 + length pcm) - 6) with (Z.of_nat (length pcm)) by lia.
  replace (R * C * 16) with (R * C * 2 * 8) by lia.
  replace (C * 16) with (C * 2 * 8) by lia.
  rewrite !Z.div_mul by lia.
  unfold pack_wav_header.
  rewrite !pack_I_Ok, !pack_H_Ok by lia. rewrite !bind_Ok.
  rewrite copy_chunks_all by lia.
  eexists. split; [reflexivity|].
  destruct (wav_layout (le_bytes 4 (36 + Z.of_nat (length pcm))) (le_bytes 4 16)
              (le_bytes 2 1) (le_bytes 2 C) (le_bytes 4 R) (le_bytes 4 (R * C * 2))
              (le_bytes 2 (C * 2)) (le_bytes 2 16)
              (le_bytes 4 (Z.of_nat (length pcm))) pcm)
    as (? & ? & E1 & ? & ? & E2 & E3 & E4 & E5 & E6 & E7 & E8 & ? & E9 & ?);
    try apply length_le_bytes.
  unfold riff_wave, uint_at.
  rewrite E1, E2, E3, E4, E5, E6, E7, E8, E9.
  rewrite !from_le_le_bytes by (simpl; lia).
  done.
Qed.

Lemma fc_as_wav_header_witness : sends_riff_wave stereo_hdr four_samples.
Proof.
  apply (fc_as_wav_header stereo_hdr four_samples).
  - reflexivity.
  - vm_compute. discriminate.
  - vm_compute. discriminate.
  - vm_compute. discriminate.
Defined.

(** *** Lookup *)

Lemma stream_unknown_id guess_type range_header raw_id d :
  unquote raw_id ∉ s_id <$> get_songs d →
  _stream guess_type range_header raw_id d = Ok (send_error_json (ulit "Not found") 404).
Proof. intros Hid%find_song_None. unfold _stream. cbv zeta. by rewrite Hid. Qed.


(** [struct.pack] raises nothing but [struct.error]. *)
Lemma pack_wav_header_cases a b c d e f g :
  (∃ hdr, pack_wav_header a b c d e f g = Ok hdr)
  ∨ pack_wav_header a b c d e f g = Raise StructError.
Proof.
  unfold pack_wav_header, pack_I, pack_H.
  repeat match goal with
         | |- context [if ?t then _ else _] => destruct t; cbn [mbind result_bind]
         end; eauto.
Qed.

(** A raw-sample file that is shorter than its header is never answered:
    its negative data size does not fit the last field. *)
Lemma fc_shorter_than_header_raises (data : bytes) :
  (length data < 6)%nat → _stream_fc_as_wav data = Raise StructError.
Proof.
  intros Hlen. unfold _stream_fc_as_wav. cbv zeta.
  set (pcm_size := Z.of_nat (length data) - 6).
  assert (pack_I pcm_size = Raise StructError) as Hlast.
  { unfold pack_I. rewrite (proj2 (Z.leb_gt 0 pcm_size)); [done|]. unfold pcm_size. lia. }
  destruct (pack_wav_header_cases (36 + pcm_size) (from_le (take 2 (drop 4 (take 6 data))))
              (from_le (take 4 (take 6 data)))
              ((from_le (take 4 (take 6 data)) * from_le (take 2 (drop 4 (take 6 data))) * 16) `div` 8)
              ((from_le (take 2 (drop 4 (take 6 data))) * 16) `div` 8) 16 pcm_size)
    as [[hdr Hok]| ->]; [|done].
  exfalso. revert Hok. unfold pack_wav_header. rewrite Hlast.
  repeat match goal with
         | |- context [pack_I ?v ≫= _] => destruct (pack_I v); cbn [mbind result_bind]
         | |- context [pack_H ?v ≫= _] => destruct (pack_H v); cbn [mbind result_bind]
         end; done.
Qed.

(** C4.  A request for a raw-sample file that stops inside its 6-byte
    header gets no response: packing the negative data size raises
    [struct.error], which nothing in the handler catches. *)
Theorem stream_short_fc_raises guess_type range_header :
  _stream guess_type range_header (ulit "fc01") (disk_of "fc01" ".fc" short_fc)
  = Raise StructError.
Proof. vm_compute. reflexivity. Qed.

(** Such a file gets into the catalog by an upload like any other. *)
Example upload_then_stream_short_fc guess_type range_header :
  ∃ meta d,
    _api_upload (post_of short_fc_body) sample_fresh empty_disk
    = Ok (send_json (JUploaded meta) 201, d)
    ∧ s_ext meta = ulit ".fc"
    ∧ _stream guess_type range_header (s_id meta) d = Raise StructError.
Proof. eexists _, _. split; [vm_compute; reflexivity|]. by vm_compute. Qed.

(** *** The range *)

Lemma range_bounds_absent file_size : range_bounds None file_size = (0, file_size - 1).
Proof. done. Qed.

Lemma range_bounds_other_unit h file_size :
  startswith h (hlit "bytes=") = false → range_bounds (Some h) file_size = (0, file_size - 1).
Proof. intros Hh. unfold range_bounds. cbn [default from_option id]. by rewrite Hh, andb_false_r. Qed.

Example range_open_end file_size :
  range_bounds (Some (hlit "bytes=5-")) file_size = (5, file_size - 1).
Proof. reflexivity. Qed.

Example range_open_start file_size :
  range_bounds (Some (hlit "bytes=-7")) file_size = (0, 7).
Proof. reflexivity. Qed.

Example range_bad_start file_size :
  range_bounds (Some (hlit "bytes=abc-7")) file_size = (0, file_size - 1).
Proof. reflexivity. Qed.

(** The start that parsed is kept when the end does not parse. *)
Lemma range_bounds_bad_end h file_size p0 p1 rest start :
  truthy h = true →
  startswith h (hlit "bytes=") = true →
  split_lit (drop 6 h) (hlit "-") = p0 :: p1 :: rest →
  truthy p0 = true → py_int p0 = Ok start →
  truthy p1 = true → py_int p1 = Raise ValueError →
  range_bounds (Some h) file_size = (start, file_size - 1).
Proof.
  intros Hh Hunit Hparts Hp0 Hstart Hp1 Hend. unfold range_bounds.
  cbn [truthy_opt default from_option id]. rewrite Hh, Hunit, Hparts.
  cbn [andb lookup list_lookup default from_option id length].
  rewrite Hp0, Hstart, Hp1, Hend. by rewrite bool_decide_eq_true_2 by lia.
Qed.

(** The whole file is the range when the start does not parse. *)
Lemma range_bounds_bad_start h file_size p0 rest :
  truthy h = true →
  startswith h (hlit "bytes=") = true →
  split_lit (drop 6 h) (hlit "-") = p0 :: rest →
  truthy p0 = true → py_int p0 = Raise ValueError →
  range_bounds (Some h) file_size = (0, file_size - 1).
Proof.
  intros Hh Hunit Hparts Hp0 Hstart. unfold range_bounds.
  cbn [truthy_opt default from_option id]. rewrite Hh, Hunit, Hparts.
  cbn [andb lookup list_lookup default from_option id].
  by rewrite Hp0, Hstart.
Qed.

(** C3.  With the header [bytes=10-abc] the end does not parse, and the
    start that was parsed before stays: the range of a file of 100 bytes is
    10-99, not 0-99. *)
Theorem range_partially_applied :
  range_bounds (Some (hlit "bytes=10-abc")) 100 = (10, 99).
Proof. vm_compute. reflexivity. Qed.

(** The start of a range is never negative: the pieces between hyphens
    hold no sign. *)

Section Pieces.
Context {A : Type} `{EqDecision A}.
Implicit Types s : list A.

Lemma find_single c s :
  find [c] s = match s with
               | [] => None
               | y :: s' => if bool_decide (c = y) then Some 0%nat else S <$> find [c] s'
               end.
Proof.
  rewrite find_unfold. destruct s as [|y s]; [done|]. simpl.
  rewrite startswith_nil_r, andb_true_r. done.
Qed.

Lemma find_single_None c s : find [c] s = None → c ∉ s.
Proof.
  induction s as [|y s IH]; rewrite find_single; [intros _; apply not_elem_of_nil|].
  case_bool_decide as Hc; [done|].
  destruct (find [c] s); [done|]. intros _. apply not_elem_of_cons. auto.
Qed.

Lemma find_single_Some c s i : find [c] s = Some i → c ∉ take i s.
Proof.
  revert i. induction s as [|y s IH]; intros i; rewrite find_single; [done|].
  case_bool_decide as Hc.
  - intros [= <-]. apply not_elem_of_nil.
  - destruct (find [c] s) as [j|]; [|done]. intros [= <-]. simpl.
    apply not_elem_of_cons. auto.
Qed.

Lemma split_lit_first c s p : split_lit s [c] !! 0%nat = Some p → c ∉ p.
Proof.
  unfold split_lit. destruct s as [|y s].
  - intros [= <-]. apply not_elem_of_nil.
  - cbn [length split_loop]. destruct (find [c] (y :: s)) as [i|] eqn:Hf.
    + intros [= <-]. by apply find_single_Some.
    + intros [= <-]. by apply find_single_None.
Qed.

Lemma elem_of_lstrip chars x s : x ∈ lstrip chars s → x ∈ s.
Proof.
  induction s as [|y s IH]; [done|]. simpl.
  destruct (chars y); [|done]. intros Hx. apply elem_of_cons. auto.
Qed.

Lemma elem_of_strip chars x s : x ∈ strip chars s → x ∈ s.
Proof.
  unfold strip, rstrip. rewrite elem_of_reverse.
  intros Hx%elem_of_lstrip. rewrite elem_of_reverse in Hx. by apply elem_of_lstrip in Hx.
Qed.
End Pieces.

Lemma digit_value_nonneg c d : digit_value c = Some d → 0 ≤ d.
Proof.
  unfold digit_value. destruct (_ && _) eqn:Hc; [|done].
  intros [= <-]. apply andb_prop in Hc as [H1%Z.leb_le _]. lia.
Qed.

Lemma int_digits_nonneg prev acc count s v n :
  0 ≤ acc → int_digits prev acc count s = Some (v, n) → 0 ≤ v.
Proof.
  revert prev acc count. induction s as [|c s IH]; intros prev acc count Hacc; simpl.
  - destruct prev; [done|]. by intros [= <- _].
  - case_bool_decide.
    + destruct prev; [done|]. by apply IH.
    + destruct (digit_value c) as [d|] eqn:Hd; [|done].
      apply digit_value_nonneg in Hd. apply IH. lia.
Qed.

Lemma int_unsigned_nonneg s v : int_unsigned s = Some v → 0 ≤ v.
Proof.
  unfold int_unsigned. destruct s as [|c s]; [done|].
  destruct (digit_value c) as [d|] eqn:Hd; [|done].
  destruct (int_digits false d 1 s) as [[w n]|] eqn:Hw; [|done].
  case_bool_decide; [|done]. intros [= <-].
  eapply int_digits_nonneg; [|done]. by eapply digit_value_nonneg.
Qed.

Lemma py_int_nonneg s v : "-"%char ∉ s → py_int s = Ok v → 0 ≤ v.
Proof.
  intros Hs. unfold py_int.
  destruct (strip int_space s) as [|c core] eqn:Hcore; [done|].
  case_bool_decide as Hminus.
  { destruct Hs. apply (elem_of_strip int_space). rewrite Hcore, Hminus.
    apply list_elem_of_here. }
  case_bool_decide.
  - destruct (int_unsigned core) as [w|] eqn:Hw; [|done].
    intros [= <-]. by eapply int_unsigned_nonneg.
  - destruct (int_unsigned (c :: core)) as [w|] eqn:Hw; [|done].
    intros [= <-]. by eapply int_unsigned_nonneg.
Qed.

Lemma range_bounds_start_nonneg range_header file_size :
  0 ≤ (range_bounds range_header file_size).1.
Proof.
  unfold range_bounds. cbv zeta.
  destruct (truthy_opt range_header && _); [|done].
  set (parts := split_lit _ _).
  destruct (parts !! 0%nat) as [p0|] eqn:Hp0; cbn [default from_option id].
  - apply split_lit_first in Hp0.
    destruct (truthy p0).
    + destruct (py_int p0) as [start|] eqn:Hstart; [|done].
      apply py_int_nonneg in Hstart; [|done].
      by destruct (if _ && _ then _ else _).
    + by destruct (if _ && _ then _ else _).
  - by destruct (if _ && _ then _ else _).
Qed.

(** *** The response to a range request *)

(** What [_stream] sends for a file that is not a raw-sample file. *)
Lemma stream_plain guess_type range_header raw_id d target data :
  find_song (unquote raw_id) (get_songs d) = Some target →
  uploads d !! s_filename target = Some data →
  s_ext target ≠ ulit ".fc" →
  let file_size := Z.of_nat (length data) in
  let start := (range_bounds range_header file_size).1 in
  let end_ := (range_bounds range_header file_size).2 in
  let mime_type :=
    or_else (default [] (guess_type (ulit "uploads/" ++ s_filename target)))
            (ulit "application/octet-stream") in
  _stream guess_type range_header raw_id d
  = Ok (SendBytes (stream_status range_header)
          ([("Content-Type", HMime mime_type);
            ("Content-Length", HInt (end_ - start + 1));
            ("Content-Range", HRange start end_ file_size);
            ("Accept-Ranges", HText "bytes");
            ("Cache-Control", HText "no-cache")]%string ++ _cors)
          (take (Z.to_nat (end_ - start + 1)) (drop (Z.to_nat start) data))).
Proof.
  intros Hid Hfile Hext. cbv zeta. unfold _stream. cbv zeta.
  rewrite Hid, Hfile. rewrite bool_decide_eq_false_2 by done.
  pose proof (range_bounds_start_nonneg range_header (Z.of_nat (length data))) as Hstart.
  destruct (range_bounds range_header (Z.of_nat (length data))) as [start end_].
  cbn [fst snd] in *. rewrite (proj2 (Z.ltb_ge start 0)) by done.
  rewrite send_chunks_all by lia. done.
Qed.




(** The two range requests of the specification, on a file of ten bytes. *)
Example stream_open_range :
  _stream (fun _ => None) (Some (hlit "bytes=0-")) (ulit "s1") (disk_of "s1" ".mp3" ten_bytes)
  = Ok (SendBytes 206
          ([("Content-Type", HMime (ulit "application/octet-stream"));
            ("Content-Length", HInt 10);
            ("Content-Range", HRange 0 9 10);
            ("Accept-Ranges", HText "bytes");
            ("Cache-Control", HText "no-cache")]%string ++ _cors)
          ten_bytes).
Proof. vm_compute. reflexivity. Qed.

Example stream_inner_range :
  ∃ headers,
    _stream (fun _ => None) (Some (hlit "bytes=2-5")) (ulit "s1") (disk_of "s1" ".mp3" ten_bytes)
    = Ok (SendBytes 206 headers (blit "2345")).
Proof. eexists. vm_compute. reflexivity. Qed.


(** * Further properties *)

(** ** More on sequences *)

Section SplitFacts.
Context {A : Type} `{EqDecision A}.
Implicit Types s sep p : list A.

Lemma split_lit_none sep s : find sep s = None → split_lit s sep = [s].
Proof.
  intros Hf. unfold split_lit. destruct (length s); [done|].
  cbn [split_loop]. by rewrite Hf.
Qed.

(** The first piece of a split is what stands before the first
    occurrence of the separator. *)
Lemma split_lit_cut sep p rest :
  sep ≠ [] → find sep (p ++ sep) = Some (length p) →
  split_lit (p ++ sep ++ rest) sep = p :: split_lit rest sep.
Proof.
  intros Hsep Hp. unfold split_lit.
  assert (0 < length sep)%nat by (destruct sep; [done|simpl; lia]).
  rewrite !length_app.
  destruct (length p + (length sep + length rest))%nat as [|fuel] eqn:Hfuel; [lia|].
  cbn [split_loop]. rewrite (find_app_first sep p rest Hp).
  rewrite take_app_length. f_equal.
  rewrite (app_assoc p sep), <- (length_app p sep), drop_app_length.
  apply split_loop_fuel; [done|lia|lia].
Qed.

Lemma head_lstrip chars s x : head (lstrip chars s) = Some x → chars x = false.
Proof.
  induction s as [|y s IH]; [done|]. simpl.
  destruct (chars y) eqn:Hy; [done|]. simpl. by intros [= <-].
Qed.

(** What [rstrip] leaves does not end with a stripped element. *)
Lemma last_rstrip chars s x : last (rstrip chars s) = Some x → chars x = false.
Proof. unfold rstrip. rewrite last_reverse. apply head_lstrip. Qed.

Lemma rstrip_app_all chars s t :
  Forall (fun x => chars x = true) t → rstrip chars (s ++ t) = rstrip chars s.
Proof.
  intros Ht. unfold rstrip. rewrite reverse_app, lstrip_app_all; [done|].
  by apply Forall_reverse.
Qed.
End SplitFacts.

(** ** More on the multipart decoder *)

Lemma read_part_content part v :
  read_part part = Some v →
  ∃ raw, pv_content v
         = rstrip (one_of CRLF) (rstrip (one_of (blit "--")) (rstrip (one_of CRLF) raw)).
Proof.
  unfold read_part. destruct (bool_decide _); [done|].
  destruct (negb _); [done|].
  destruct (partition _ _) as [[headers_raw sep] content].
  destruct (foldl _ _ _) as [name fn]. intros [= <-]. by eexists.
Qed.

Lemma read_part_content_end part v x :
  read_part part = Some v → last (pv_content v) = Some x → x ≠ CR ∧ x ≠ LF.
Proof.
  intros [raw ->]%read_part_content Hx%last_rstrip.
  apply bool_decide_eq_false in Hx. unfold CRLF in Hx.
  rewrite !elem_of_cons in Hx. split; intros ->; tauto.
Qed.

Lemma store_part_file_ok part st v :
  read_part part = Some v → file_ok st → file_ok (store_part st v).
Proof.
  intros Hv (Hboth & Hname & Hend). unfold store_part.
  destruct (truthy_opt (pv_fn v)) eqn:Hfn.
  - split; [|split]; simpl.
    + destruct (pv_fn v); [|done]. split; done.
    + intros Hnil. by rewrite Hnil in Hfn.
    + intros data x [= <-]. by apply (read_part_content_end part).
  - by destruct (truthy (pv_name v)).
Qed.

Lemma parse_parts_file_ok parts st : file_ok st → file_ok (parse_parts parts st).
Proof.
  revert st. induction parts as [|p parts IH]; intros st Hst; [done|].
  simpl. destruct (read_part p) as [v|] eqn:Hv; [|by apply IH].
  apply IH. by eapply store_part_file_ok.
Qed.

Lemma no_parse_state_file_ok : file_ok no_parse_state.
Proof. by repeat split. Qed.

(** X1.  Whatever the body, the decoder returns a file name exactly when
    it returns file data, the file name it returns is not empty, and the
    file data does not end with a carriage return or a line feed. *)
Theorem parse_multipart_file_shape body boundary :
  ∃ st, _parse_multipart body boundary = Ok st
        ∧ (file_data st = None ↔ filename st = None)
        ∧ filename st ≠ Some []
        ∧ ∀ data x, file_data st = Some data → last data = Some x → x ≠ CR ∧ x ≠ LF.
Proof.
  eexists. split; [apply parse_multipart_unfold|].
  exact (parse_parts_file_ok (drop 1 (split_lit body (blit "--" ++ boundary)))
           no_parse_state no_parse_state_file_ok).
Qed.

(** X2.  A body in which the delimiter does not occur, the empty body for
    one, decodes to no field and no file. *)
Theorem parse_multipart_no_delimiter body boundary :
  find (blit "--" ++ boundary) body = None →
  _parse_multipart body boundary = Ok no_parse_state.
Proof.
  intros Hf. rewrite parse_multipart_unfold. by rewrite split_lit_none.
Qed.

Lemma parse_multipart_no_delimiter_witness :
  _parse_multipart (blit "title=Tune&artist=Me") (blit "XyZ") = Ok no_parse_state.
Proof.
  apply (parse_multipart_no_delimiter (blit "title=Tune&artist=Me") (blit "XyZ")).
  vm_compute. reflexivity.
Defined.

(** X3.  What stands before the first delimiter is not looked at: a body
    decodes as the body that starts at its first delimiter. *)
Theorem parse_multipart_preamble preamble rest boundary :
  delimiter_free (blit "--" ++ boundary) preamble →
  _parse_multipart (preamble ++ (blit "--" ++ boundary) ++ rest) boundary
  = _parse_multipart ((blit "--" ++ boundary) ++ rest) boundary.
Proof.
  intros Hfree. rewrite !parse_multipart_unfold.
  rewrite (split_lit_cut _ preamble rest) by done.
  rewrite <- (app_nil_l ((blit "--" ++ boundary) ++ rest)).
  rewrite (split_lit_cut _ [] rest); [done|done|].
  rewrite find_unfold, app_nil_l.
  by rewrite <- (app_nil_r (blit "--" ++ boundary)) at 1; rewrite startswith_app.
Qed.

Lemma parse_multipart_preamble_witness :
  _parse_multipart (blit "This is a multipart message." ++ CRLF
                    ++ (blit "--" ++ blit "XyZ") ++ first_file ++ blit "--XyZ--" ++ CRLF)
                   (blit "XyZ")
  = _parse_multipart ((blit "--" ++ blit "XyZ") ++ first_file ++ blit "--XyZ--" ++ CRLF)
                     (blit "XyZ").
Proof.
  rewrite (app_assoc (blit "This is a multipart message.") CRLF).
  apply (parse_multipart_preamble (blit "This is a multipart message." ++ CRLF)
           (first_file ++ blit "--XyZ--" ++ CRLF) (blit "XyZ")).
  vm_compute. reflexivity.
Defined.

(** Parts that do not store the name [n] leave its field as it is. *)
Lemma parse_parts_field_kept parts st n :
  Forall (fun q => stores_field q n = false) parts →
  fields (parse_parts parts st) !! n = fields st !! n.
Proof.
  intros Hall. revert st. induction Hall as [|q parts Hq _ IH]; intros st; [done|].
  simpl. unfold stores_field in Hq.
  destruct (read_part q) as [v|]; [|apply IH].
  rewrite IH. unfold store_part.
  destruct (truthy_opt (pv_fn v)); [done|].
  destruct (truthy (pv_name v)); [|done]. simpl in Hq.
  apply bool_decide_eq_false in Hq. simpl. by rewrite lookup_insert_ne.
Qed.

(** X4.  When a field name occurs in several parts, the value of the last
    of them is the one returned. *)
Theorem field_last_wins body boundary parts pre p post v :
  split body (blit "--" ++ boundary) = Ok parts →
  drop 1 parts = pre ++ p :: post →
  read_part p = Some v →
  truthy_opt (pv_fn v) = false →
  truthy (pv_name v) = true →
  Forall (fun q => stores_field q (pv_name v) = false) post →
  ∃ st, _parse_multipart body boundary = Ok st
        ∧ fields st !! pv_name v = Some (decode (pv_content v)).
Proof.
  intros Hsplit Hparts Hp Hfn Hname Hpost.
  eexists. split; [apply parse_multipart_unfold|].
  assert (parts = split_lit body (blit "--" ++ boundary)) as <-.
  { rewrite split_Ok in Hsplit by done. congruence. }
  rewrite Hparts, parse_parts_app. simpl. rewrite Hp.
  rewrite parse_parts_field_kept by done.
  unfold store_part. rewrite Hfn, Hname. simpl. apply lookup_insert_eq.
Qed.

Lemma field_last_wins_witness :
  ∃ st, _parse_multipart fields_body (blit "XyZ") = Ok st
        ∧ fields st !! ulit "title" = Some (ulit "Second").
Proof.
  apply (field_last_wins fields_body (blit "XyZ")
           [[]; form_part "title" None (blit "First");
            form_part "artist" None (blit "Me");
            form_part "title" None (blit "Second"); blit "--" ++ CRLF]
           [form_part "title" None (blit "First"); form_part "artist" None (blit "Me")]
           (form_part "title" None (blit "Second")) [blit "--" ++ CRLF]
           (PartVars (ulit "title") None (blit "Second"))).
  - vm_compute. reflexivity.
  - vm_compute. reflexivity.
  - vm_compute. reflexivity.
  - reflexivity.
  - reflexivity.
  - constructor; [vm_compute; reflexivity|constructor].
Defined.

Lemma parse_parts_field_origin parts st n val :
  fields (parse_parts parts st) !! n = Some val →
  fields st !! n = Some val
  ∨ ∃ p v, p ∈ parts ∧ read_part p = Some v ∧ pv_name v = n ∧ n ≠ []
           ∧ truthy_opt (pv_fn v) = false ∧ val = decode (pv_content v).
Proof.
  revert st. induction parts as [|q parts IH]; intros st; [by left|].
  simpl. destruct (read_part q) as [v|] eqn:Hv.
  - intros [Hst | (p & w & Hin & Hrest)]%IH.
    + unfold store_part in Hst.
      destruct (truthy_opt (pv_fn v)) eqn:Hfn; [by left|].
      destruct (truthy (pv_name v)) eqn:Hname; [|by left].
      simpl in Hst. destruct (decide (pv_name v = n)) as [<-|Hne].
      * rewrite lookup_insert_eq in Hst. injection Hst as <-.
        right. exists q, v. split; [apply list_elem_of_here|].
        repeat split; try done. intros Hnil. by rewrite Hnil in Hname.
      * rewrite lookup_insert_ne in Hst by done. by left.
    + right. exists p, w. split; [by apply list_elem_of_further|done].
  - intros [Hst | (p & w & Hin & Hrest)]%IH; [by left|].
    right. exists p, w. split; [by apply list_elem_of_further|done].
Qed.

(** X5.  Every field the decoder returns comes from a part that declares
    that name, not empty, and no non-empty file name; its value is the
    decoded content of that part.  So the name of a file part is no field,
    and the empty name is no key. *)
Theorem field_declared body boundary st n val :
  _parse_multipart body boundary = Ok st →
  fields st !! n = Some val →
  ∃ parts p v,
    split body (blit "--" ++ boundary) = Ok parts
    ∧ p ∈ drop 1 parts ∧ read_part p = Some v
    ∧ pv_name v = n ∧ n ≠ [] ∧ truthy_opt (pv_fn v) = false
    ∧ val = decode (pv_content v).
Proof.
  rewrite parse_multipart_unfold. intros [= <-] Hn.
  apply parse_parts_field_origin in Hn as [Hn | (p & v & Hin & Hrest)]; [done|].
  exists (split_lit body (blit "--" ++ boundary)), p, v.
  split; [by apply split_Ok|done].
Qed.

Lemma field_declared_witness :
  ∃ parts p v,
    split fields_body (blit "--" ++ blit "XyZ") = Ok parts
    ∧ p ∈ drop 1 parts ∧ read_part p = Some v
    ∧ pv_name v = ulit "artist" ∧ ulit "artist" ≠ [] ∧ truthy_opt (pv_fn v) = false
    ∧ ulit "Me" = decode (pv_content v).
Proof.
  apply (field_declared fields_body (blit "XyZ")
           (ParseState {[ ulit "artist" := ulit "Me"; ulit "title" := ulit "Second" ]} None None)).
  - vm_compute. reflexivity.
  - vm_compute. reflexivity.
Defined.

(** ** More on uploads *)

Lemma truthy_nonempty {A} (s : list A) : truthy s = true ↔ s ≠ [].
Proof. by destruct s. Qed.

Lemma truthy_opt_Some {A} (o : option (list A)) :
  truthy_opt o = true → ∃ s, o = Some s ∧ s ≠ [].
Proof. destruct o as [[|x s]|]; try done. intros _. by eexists. Qed.

Lemma or_else_nonempty a b : b ≠ [] → or_else a b ≠ [].
Proof. unfold or_else. by destruct a. Qed.


(** The two ways [_api_upload] returns. *)
Lemma api_upload_inv rq fr d r d' :
  _api_upload rq fr d = Ok (r, d') →
  (∃ msg, r = send_error_json msg 400 ∧ d' = d)
  ∨ ∃ boundary n parsed data fn,
      _parse_multipart (rfile_read n (rfile rq)) boundary = Ok parsed
      ∧ file_data parsed = Some data ∧ data ≠ []
      ∧ filename parsed = Some fn ∧ fn ≠ []
      ∧ lower (path_suffix fn) ∈ ALLOWED_EXTS
      ∧ let ext := lower (path_suffix fn) in
        let meta :=
          {| s_id := uuid4 fr;
             s_title := or_else (field (fields parsed) "title") (ulit "Unknown Title");
             s_artist := or_else (field (fields parsed) "artist") (ulit "Unknown Artist");
             s_comment := field (fields parsed) "comment";
             s_filename := uuid4 fr ++ ext; s_ext := ext;
             s_size := Z.of_nat (length data); s_uploaded := utcnow fr |} in
        r = send_json (JUploaded meta) 201
        ∧ d' = add_song meta (Disk (db_file d) (<[uuid4 fr ++ ext := data]> (uploads d))).
Proof.
  unfold _api_upload. cbv zeta.
  destruct (negb (contains _ _)); [intros [= <- <-]; left; by eexists|].
  destruct (find_boundary _) as [boundary|]; cbn [truthy_opt negb default from_option id];
    [|intros [= <- <-]; left; by eexists].
  destruct (truthy boundary); cbn [negb]; [|intros [= <- <-]; left; by eexists].
  destruct (content_length rq) as [n|e]; [|done]. rewrite bind_Ok.
  destruct (_parse_multipart _ boundary) as [parsed|e] eqn:Hparsed; [|done].
  rewrite bind_Ok.
  destruct (truthy_opt (file_data parsed)) eqn:Hdata; cbn [negb orb];
    [|intros [= <- <-]; left; by eexists].
  destruct (truthy_opt (filename parsed)) eqn:Hfn; cbn [negb];
    [|intros [= <- <-]; left; by eexists].
  apply truthy_opt_Some in Hdata as (data & Hdata & Hdne).
  apply truthy_opt_Some in Hfn as (fn & Hfn & Hfne).
  rewrite Hdata, Hfn. cbn [default from_option id].
  case_bool_decide as Hext; [intros [= <- <-]; left; by eexists|].
  intros [= <- <-]. right. exists boundary, n, parsed, data, fn.
  repeat split; first [done | by apply dec_stable].
Qed.

(** X6.  An upload is answered with 400 or with 201, and an upload that is
    answered with 400 leaves the files and the catalog as they were. *)
Theorem api_upload_rejects_cleanly rq fr d r d' :
  _api_upload rq fr d = Ok (r, d') →
  (status_of r = 400 ∧ d' = d) ∨ status_of r = 201.
Proof.
  intros [(msg & -> & ->) | (b & n & parsed & data & fn & _ & _ & _ & _ & _ & _ & -> & _)]%api_upload_inv.
  - by left.
  - by right.
Qed.

Lemma api_upload_rejects_cleanly_witness :
  (status_of (send_error_json (ulit "No file uploaded") 400) = 400 ∧ empty_disk = empty_disk)
  ∨ status_of (send_error_json (ulit "No file uploaded") 400) = 201.
Proof.
  apply (api_upload_rejects_cleanly (post_of empty_file_body) sample_fresh empty_disk).
  vm_compute. reflexivity.
Defined.

(** X7.  The record of an accepted upload has an extension of the
    allow-list, the stored name made of its id and that extension, a title
    and an artist that are not empty, and a size that is positive and is
    the number of bytes of its backing file, which exists. *)
Theorem api_upload_record rq fr d meta d' :
  _api_upload rq fr d = Ok (send_json (JUploaded meta) 201, d') →
  s_id meta = uuid4 fr
  ∧ s_ext meta ∈ ALLOWED_EXTS
  ∧ s_filename meta = s_id meta ++ s_ext meta
  ∧ s_title meta ≠ [] ∧ s_artist meta ≠ []
  ∧ 0 < s_size meta
  ∧ ∃ data, uploads d' !! s_filename meta = Some data
            ∧ s_size meta = Z.of_nat (length data).
Proof.
  intros [(msg & Hr & _) | (b & n & parsed & data & fn & _ & _ & Hdne & _ & _ & Hext & Hr & ->)]%api_upload_inv;
    [done|].
  injection Hr as ->. cbn [s_id s_ext s_filename s_title s_artist s_size].
  repeat split; try done.
  - by apply or_else_nonempty.
  - by apply or_else_nonempty.
  - destruct data; [done|]. simpl. lia.
  - exists data. split; [|done]. simpl. apply lookup_insert_eq.
Qed.

Lemma api_upload_record_witness :
  let meta := song_of "0b5cfa0e-6f0b-4e53-9a3c-3f1f2d1c9a77" ".mp3" (blit "A") in
  s_id meta = uuid4 sample_fresh
  ∧ s_ext meta ∈ ALLOWED_EXTS
  ∧ s_filename meta = s_id meta ++ s_ext meta
  ∧ s_title meta ≠ [] ∧ s_artist meta ≠ []
  ∧ 0 < s_size meta
  ∧ ∃ data, uploads (disk_of "0b5cfa0e-6f0b-4e53-9a3c-3f1f2d1c9a77" ".mp3" (blit "A"))
              !! s_filename meta = Some data
            ∧ s_size meta = Z.of_nat (length data).
Proof.
  apply (api_upload_record (post_of newline_file_body) sample_fresh empty_disk).
  vm_compute. reflexivity.
Defined.

(** X8.  An accepted upload appends its record to the catalog, after the
    records that were there, and writes its backing file; no other file
    is touched. *)
Theorem api_upload_effect rq fr d meta d' :
  _api_upload rq fr d = Ok (send_json (JUploaded meta) 201, d') →
  get_songs d' = get_songs d ++ [meta]
  ∧ ∀ name, name ≠ s_filename meta → uploads d' !! name = uploads d !! name.
Proof.
  intros [(msg & Hr & _) | (b & n & parsed & data & fn & _ & _ & _ & _ & _ & _ & Hr & ->)]%api_upload_inv;
    [done|].
  injection Hr as ->. split; [done|].
  intros name Hname. simpl in *. by rewrite lookup_insert_ne.
Qed.

Lemma api_upload_effect_witness :
  let meta := song_of "0b5cfa0e-6f0b-4e53-9a3c-3f1f2d1c9a77" ".mp3" (blit "A") in
  get_songs (disk_of "0b5cfa0e-6f0b-4e53-9a3c-3f1f2d1c9a77" ".mp3" (blit "A"))
  = get_songs empty_disk ++ [meta]
  ∧ ∀ name, name ≠ s_filename meta →
            uploads (disk_of "0b5cfa0e-6f0b-4e53-9a3c-3f1f2d1c9a77" ".mp3" (blit "A")) !! name
            = uploads empty_disk !! name.
Proof.
  apply (api_upload_effect (post_of newline_file_body) sample_fresh empty_disk).
  vm_compute. reflexivity.
Defined.



(** ** More on the catalog store *)

Lemma find_song_app song_id (songs more : list song) :
  find_song song_id (songs ++ more)
  = match find_song song_id songs with
    | Some s => Some s
    | None => find_song song_id more
    end.
Proof.
  unfold find_song. rewrite filter_app.
  by destruct (filter (fun s => s_id s = song_id) songs).
Qed.

(** X10.  After [add_song], an id that a record already had still
    resolves to that record; the new record is found under its id only if
    the id was free. *)
Theorem find_song_add_song song_id meta d :
  find_song song_id (get_songs (add_song meta d))
  = match find_song song_id (get_songs d) with
    | Some s => Some s
    | None => if decide (s_id meta = song_id) then Some meta else None
    end.
Proof.
  unfold add_song, get_songs. rewrite load_save, find_song_app.
  destruct (find_song song_id (load_db d)); [done|].
  unfold find_song. rewrite filter_cons. by destruct (decide (s_id meta = song_id)).
Qed.

Lemma filter_all_other song_id (songs : list song) :
  song_id ∉ s_id <$> songs → filter (fun s => s_id s ≠ song_id) songs = songs.
Proof.
  induction songs as [|s songs IH]; [done|].
  rewrite fmap_cons, not_elem_of_cons. intros [Hne Hrest].
  rewrite filter_cons, decide_True by done. by rewrite IH.
Qed.

(** X11.  [delete_song_by_id] returns whether a record has the id.  It
    keeps the other records in their order and never touches a file; when
    no record has the id it writes nothing, so that a document that cannot
    be parsed stays as it is. *)
Theorem delete_song_by_id_spec song_id d :
  (delete_song_by_id song_id d).1 = bool_decide (song_id ∈ (s_id <$> get_songs d))
  ∧ get_songs (delete_song_by_id song_id d).2
    = filter (fun s => s_id s ≠ song_id) (get_songs d)
  ∧ uploads (delete_song_by_id song_id d).2 = uploads d
  ∧ ((delete_song_by_id song_id d).1 = false → (delete_song_by_id song_id d).2 = d).
Proof.
  unfold get_songs.
  destruct (decide (song_id ∈ (s_id <$> load_db d))) as [Hin|Hout].
  - apply list_elem_of_fmap in Hin as (target & Hid & Hin).
    rewrite (delete_song_by_id_known song_id d target) by done.
    rewrite bool_decide_eq_true_2 by (apply list_elem_of_fmap; eauto).
    by repeat split.
  - rewrite bool_decide_eq_false_2 by done.
    unfold delete_song_by_id. cbv zeta.
    rewrite filter_all_other by done. rewrite bool_decide_eq_true_2 by done.
    by repeat split.
Qed.

(** X12.  Adding a record under a free id and deleting that id gives the
    catalog back. *)
Theorem add_then_delete meta d :
  s_id meta ∉ (s_id <$> get_songs d) →
  (delete_song_by_id (s_id meta) (add_song meta d)).1 = true
  ∧ get_songs (delete_song_by_id (s_id meta) (add_song meta d)).2 = get_songs d.
Proof.
  intros Hfree.
  destruct (delete_song_by_id_spec (s_id meta) (add_song meta d)) as (-> & -> & _).
  unfold add_song, get_songs in *. rewrite load_save. split.
  - apply bool_decide_eq_true_2. rewrite fmap_app. apply elem_of_app. right.
    apply list_elem_of_here.
  - rewrite filter_app, filter_all_other by done.
    rewrite filter_cons, decide_False by (by intros Hne). by rewrite app_nil_r.
Qed.

Lemma add_then_delete_witness :
  (delete_song_by_id (ulit "s2")
     (add_song (song_of "s2" ".ogg" ten_bytes) (disk_of "s1" ".mp3" ten_bytes))).1 = true
  ∧ get_songs (delete_song_by_id (ulit "s2")
                 (add_song (song_of "s2" ".ogg" ten_bytes) (disk_of "s1" ".mp3" ten_bytes))).2
    = get_songs (disk_of "s1" ".mp3" ten_bytes).
Proof.
  apply (add_then_delete (song_of "s2" ".ogg" ten_bytes) (disk_of "s1" ".mp3" ten_bytes)).
  vm_compute. intros Hin. apply list_elem_of_singleton in Hin. discriminate Hin.
Defined.

(** ** The catalog and its files *)

Lemma NoDup_fmap_eq {A B} (f : A → B) (l : list A) x y :
  NoDup (f <$> l) → x ∈ l → y ∈ l → f x = f y → x = y.
Proof.
  induction l as [|z l IH]; [by intros _ ?%elem_of_nil|].
  rewrite fmap_cons, NoDup_cons. intros [Hz Hl] Hx Hy Hxy.
  apply elem_of_cons in Hx as [->|Hx]; apply elem_of_cons in Hy as [->|Hy]; try done.
  - destruct Hz. rewrite Hxy. apply list_elem_of_fmap. eauto.
  - destruct Hz. rewrite <- Hxy. apply list_elem_of_fmap. eauto.
  - by apply IH.
Qed.

Lemma load_db_dumped songs files : load_db (Disk (Some (json_dumps songs)) files) = songs.
Proof. done. Qed.

(** X13.  Deleting keeps the catalog and the files together: if every
    record had its own backing file before [_api_delete], so it is after. *)
Theorem api_delete_well_kept song_id d :
  well_kept d → well_kept (_api_delete song_id d).2.
Proof.
  intros [Hnodup Hfiles]. unfold _api_delete.
  destruct (find_song song_id (get_songs d)) as [target|] eqn:Hfind; [|done].
  apply find_song_Some in Hfind as [Hin Hid].
  cbn [snd]. unfold get_songs in *.
  rewrite (delete_song_by_id_known song_id d target) by done.
  cbn [snd]. unfold well_kept, get_songs, unlink, save_db. cbn [db_file uploads].
  rewrite load_db_dumped. split.
  - apply (sublist_NoDup _ (s_filename <$> load_db d)); [done|].
    apply fmap_sublist, sublist_filter.
  - intros s [Hne Hs]%list_elem_of_filter.
    rewrite lookup_delete_ne; [by apply Hfiles|].
    intros Heq. apply Hne. rewrite <- Hid. f_equal.
    by apply (NoDup_fmap_eq s_filename (load_db d)).
Qed.

Lemma api_delete_well_kept_witness :
  well_kept (_api_delete (ulit "s1") (disk_of "s1" ".mp3" ten_bytes)).2.
Proof.
  apply (api_delete_well_kept (ulit "s1") (disk_of "s1" ".mp3" ten_bytes)).
  split.
  - vm_compute. repeat constructor. apply not_elem_of_nil.
  - intros s Hs. vm_compute in Hs. apply list_elem_of_singleton in Hs. subst s.
    vm_compute. by eexists.
Defined.

(** X14.  An upload, accepted or not, keeps the catalog and the files
    together: if every record had its own backing file before
    [_api_upload], and no stored name begins with the id it draws, so it
    is after. *)
Theorem api_upload_well_kept rq fr d r d' :
  well_kept d →
  Forall (fun s => ¬ uuid4 fr `prefix_of` s_filename s) (get_songs d) →
  _api_upload rq fr d = Ok (r, d') →
  well_kept d'.
Proof.
  intros [Hnodup Hfiles] Hfresh
    [(msg & _ & ->) | (b & n & parsed & data & fn & _ & _ & _ & _ & _ & _ & _ & ->)]%api_upload_inv;
    [done|].
  cbv zeta. unfold well_kept, add_song, get_songs in *. rewrite load_save. simpl.
  change (load_db (Disk (db_file d) _)) with (load_db d). split.
  - rewrite fmap_app. apply NoDup_app. split; [done|]. split; [|apply NoDup_singleton].
    intros name (s & -> & Hs)%list_elem_of_fmap Hnew. simpl in Hnew.
    apply list_elem_of_singleton in Hnew. rewrite Forall_forall in Hfresh.
    apply (Hfresh s Hs). rewrite Hnew. by apply prefix_app_r.
  - intros s [Hs | ->%list_elem_of_singleton]%elem_of_app.
    + destruct (decide (uuid4 fr ++ lower (path_suffix fn) = s_filename s)) as [<-|Hne].
      * rewrite lookup_insert_eq. by eexists.
      * rewrite lookup_insert_ne by done. by apply Hfiles.
    + simpl. rewrite lookup_insert_eq. by eexists.
Qed.

Lemma api_upload_well_kept_witness :
  well_kept (disk_of "0b5cfa0e-6f0b-4e53-9a3c-3f1f2d1c9a77" ".mp3" (blit "A")).
Proof.
  apply (api_upload_well_kept (post_of newline_file_body) sample_fresh empty_disk
           (send_json (JUploaded (song_of "0b5cfa0e-6f0b-4e53-9a3c-3f1f2d1c9a77" ".mp3"
                                          (blit "A"))) 201)).
  - split; [constructor|]. intros s Hs. by apply elem_of_nil in Hs.
  - constructor.
  - vm_compute. reflexivity.
Defined.

(** ** Handlers one after the other *)

(** X15.  After [_api_delete] of an id, a request to stream that id is
    answered with 404 "Not found", whatever the catalog held. *)
Theorem stream_after_delete guess_type range_header raw_id d :
  _stream guess_type range_header raw_id (_api_delete (unquote raw_id) d).2
  = Ok (send_error_json (ulit "Not found") 404).
Proof.
  apply stream_unknown_id. unfold _api_delete.
  destruct (find_song (unquote raw_id) (get_songs d)) as [target|] eqn:Hfind.
  - apply find_song_Some in Hfind as [Hin Hid]. cbn [snd]. unfold get_songs in *.
    rewrite (delete_song_by_id_known _ d target) by done.
    apply filter_other_ids.
  - by apply find_song_None.
Qed.

(** ** More on ranges *)

Section Single.
Context {A : Type} `{EqDecision A}.

Lemma find_single_absent (c : A) s : c ∉ s → find [c] s = None.
Proof.
  induction s as [|y s IH]; rewrite find_single; [done|].
  rewrite not_elem_of_cons. intros [Hne Hs].
  rewrite bool_decide_eq_false_2 by done. by rewrite IH.
Qed.

Lemma find_single_end (c : A) s : c ∉ s → find [c] (s ++ [c]) = Some (length s).
Proof.
  induction s as [|y s IH]; rewrite find_single; simpl.
  - intros _. by rewrite bool_decide_eq_true_2.
  - rewrite not_elem_of_cons. intros [Hne Hs].
    rewrite bool_decide_eq_false_2 by done. by rewrite IH.
Qed.

(** Two pieces without the separator, and the separator between them. *)
Lemma split_lit_two (c : A) a b :
  c ∉ a → c ∉ b → split_lit (a ++ [c] ++ b) [c] = [a; b].
Proof.
  intros Ha Hb. rewrite split_lit_cut; [|done|by apply find_single_end].
  by rewrite split_lit_none by by apply find_single_absent.
Qed.
End Single.

Lemma is_digit_value c : is_digit c = true → digit_value c = Some (code c - 48).
Proof. unfold is_digit, digit_value. by intros ->. Qed.

Lemma is_digit_not_space c : is_digit c = true → int_space c = false.
Proof.
  unfold is_digit, int_space. intros [H1%Z.leb_le H2%Z.leb_le]%andb_prop.
  repeat match goal with
         | |- context [?a <=? ?b] => destruct (Z.leb_spec a b); try lia
         | |- context [?a =? ?b] => destruct (Z.eqb_spec a b); try lia
         end; done.
Qed.

Lemma is_digit_not_char c (x : ascii) :
  is_digit c = true → is_digit x = false → c ≠ x.
Proof. by intros Hc Hx ->; rewrite Hc in Hx. Qed.

Lemma digits_no_hyphen s :
  Forall (fun c => is_digit c = true) s → "-"%char ∉ s.
Proof.
  intros Hall Hin. rewrite Forall_forall in Hall. by specialize (Hall _ Hin).
Qed.

Lemma int_digits_all acc count s :
  Forall (fun c => is_digit c = true) s →
  int_digits false acc count s
  = Some (foldl (fun acc c => 10 * acc + (code c - 48)) acc s, (count + length s)%nat).
Proof.
  intros Hall. revert acc count.
  induction Hall as [|c s Hc _ IH]; intros acc count; simpl.
  - by rewrite Nat.add_0_r.
  - rewrite bool_decide_eq_false_2 by (by apply is_digit_not_char).
    rewrite (is_digit_value c Hc), IH. by rewrite Nat.add_succ_r.
Qed.

(** [int()] reads a string of at most 4300 digits as its decimal value. *)
Lemma py_int_digits s :
  s ≠ [] → Forall (fun c => is_digit c = true) s → (length s ≤ 4300)%nat →
  py_int s = Ok (decimal s).
Proof.
  intros Hne Hall Hlen. unfold py_int.
  assert (strip int_space s = s) as ->.
  { unfold strip. rewrite (lstrip_head int_space s).
    - apply rstrip_keep. intros x Hx. apply is_digit_not_space.
      rewrite Forall_forall in Hall. apply Hall. by apply last_Some_elem_of.
    - intros x Hx. apply is_digit_not_space.
      rewrite Forall_forall in Hall. apply Hall. by apply head_Some_elem_of. }
  destruct s as [|c s]; [done|].
  apply Forall_cons in Hall as [Hc Hs].
  rewrite !bool_decide_eq_false_2 by (by apply is_digit_not_char).
  unfold int_unsigned. rewrite (is_digit_value c Hc), (int_digits_all _ _ s Hs).
  rewrite bool_decide_eq_true_2 by (unfold INT_MAX_STR_DIGITS; simpl in Hlen; lia).
  unfold decimal. simpl. by rewrite Z.mul_0_r.
Qed.

Lemma bound_read dflt s :
  Forall (fun c => is_digit c = true) s → (length s ≤ 4300)%nat →
  (if truthy s then py_int s else Ok dflt) = Ok (bound_or dflt s).
Proof.
  intros Hall Hlen. destruct s as [|c s]; [done|].
  cbn [truthy bound_or]. by apply py_int_digits.
Qed.

(** The range of a header that splits into two pieces that both read. *)
Lemma range_bounds_two h file_size p0 p1 first last :
  truthy h = true → startswith h (hlit "bytes=") = true →
  split_lit (drop 6 h) (hlit "-") = [p0; p1] →
  (if truthy p0 then py_int p0 else Ok 0) = Ok first →
  (if truthy p1 then py_int p1 else Ok (file_size - 1)) = Ok last →
  range_bounds (Some h) file_size = (first, last).
Proof.
  intros Hh Hunit Hparts Hfirst Hlast. unfold range_bounds.
  cbn [truthy_opt default from_option id]. rewrite Hh, Hunit, Hparts.
  cbn [andb lookup list_lookup default from_option id length].
  rewrite Hfirst. rewrite bool_decide_eq_true_2 by lia. cbn [andb].
  by rewrite Hlast.
Qed.

Lemma range_bounds_digits a b file_size :
  Forall (fun c => is_digit c = true) a → (length a ≤ 4300)%nat →
  Forall (fun c => is_digit c = true) b → (length b ≤ 4300)%nat →
  range_bounds (Some (hlit "bytes=" ++ a ++ hlit "-" ++ b)) file_size
  = (bound_or 0 a, bound_or (file_size - 1) b).
Proof.
  intros Ha Hla Hb Hlb.
  apply (range_bounds_two _ _ a b).
  - done.
  - apply startswith_app.
  - rewrite (drop_app_length' (hlit "bytes=")) by done.
    apply (split_lit_two "-"%char); by apply digits_no_hyphen.
  - by apply bound_read.
  - by apply bound_read.
Qed.



(** ** More on streaming *)

Lemma stream_plain_response guess_type range_header raw_id d target data :
  find_song (unquote raw_id) (get_songs d) = Some target →
  uploads d !! s_filename target = Some data →
  s_ext target ≠ ulit ".fc" →
  _stream guess_type range_header raw_id d
  = Ok (SendBytes (stream_status range_header)
          (stream_headers (mime_of guess_type target)
             (range_bounds range_header (Z.of_nat (length data))).1
             (range_bounds range_header (Z.of_nat (length data))).2
             (Z.of_nat (length data)))
          (slice (range_bounds range_header (Z.of_nat (length data))).1
                 (range_bounds range_header (Z.of_nat (length data))).2 data)).
Proof. intros Hid Hfile Hext. by rewrite (stream_plain _ _ _ _ target data). Qed.

(** X17.  A request for [bytes=a-b] with a ≤ b below the size of the
    file is answered with 206, the length b − a + 1, the range a-b of the
    size, and exactly the bytes of the file from a to b. *)
Theorem stream_range_exact guess_type a b raw_id d target data :
  find_song (unquote raw_id) (get_songs d) = Some target →
  uploads d !! s_filename target = Some data →
  s_ext target ≠ ulit ".fc" →
  a ≠ [] → Forall (fun c => is_digit c = true) a → (length a ≤ 4300)%nat →
  b ≠ [] → Forall (fun c => is_digit c = true) b → (length b ≤ 4300)%nat →
  decimal a ≤ decimal b < Z.of_nat (length data) →
  _stream guess_type (Some (hlit "bytes=" ++ a ++ hlit "-" ++ b)) raw_id d
  = Ok (SendBytes 206
          (stream_headers (mime_of guess_type target) (decimal a) (decimal b)
                          (Z.of_nat (length data)))
          (slice (decimal a) (decimal b) data))
  ∧ Z.of_nat (length (slice (decimal a) (decimal b) data)) = decimal b - decimal a + 1.
Proof.
  intros Hid Hfile Hext Hane Ha Hla Hbne Hb Hlb Hab.
  rewrite (stream_plain_response _ _ _ _ target data) by done.
  rewrite range_bounds_digits by done.
  destruct a as [|ca a]; [done|]. destruct b as [|cb b]; [done|].
  cbn [bound_or fst snd]. split; [done|].
  assert (0 ≤ decimal (ca :: a)) as Hnonneg.
  { pose proof (py_int_digits (ca :: a) Hane Ha Hla) as Hint.
    apply py_int_nonneg in Hint; [done|]. by apply digits_no_hyphen. }
  unfold slice. rewrite length_take, length_drop. lia.
Qed.

Lemma stream_range_exact_witness :
  _stream (fun _ => None) (Some (hlit "bytes=" ++ hlit "2" ++ hlit "-" ++ hlit "5"))
          (ulit "s1") (disk_of "s1" ".mp3" ten_bytes)
  = Ok (SendBytes 206
          (stream_headers (mime_of (fun _ => None) (song_of "s1" ".mp3" ten_bytes))
                          (decimal (hlit "2")) (decimal (hlit "5"))
                          (Z.of_nat (length ten_bytes)))
          (slice (decimal (hlit "2")) (decimal (hlit "5")) ten_bytes))
  ∧ Z.of_nat (length (slice (decimal (hlit "2")) (decimal (hlit "5")) ten_bytes))
    = decimal (hlit "5") - decimal (hlit "2") + 1.
Proof.
  apply (stream_range_exact (fun _ => None) (hlit "2") (hlit "5") (ulit "s1")
           (disk_of "s1" ".mp3" ten_bytes) (song_of "s1" ".mp3" ten_bytes) ten_bytes).
  - vm_compute. reflexivity.
  - vm_compute. reflexivity.
  - vm_compute. discriminate.
  - discriminate.
  - repeat constructor.
  - simpl. lia.
  - discriminate.
  - repeat constructor.
  - simpl. lia.
  - vm_compute. split; [discriminate | reflexivity].
Defined.

(** X18.  A request without Range header for a file that is not a
    raw-sample file is answered with 200 and the whole file; the length
    it announces is the size of the file. *)
Theorem stream_whole_file guess_type raw_id d target data :
  find_song (unquote raw_id) (get_songs d) = Some target →
  uploads d !! s_filename target = Some data →
  s_ext target ≠ ulit ".fc" →
  _stream guess_type None raw_id d
  = Ok (SendBytes 200
          (stream_headers (mime_of guess_type target) 0 (Z.of_nat (length data) - 1)
                          (Z.of_nat (length data)))
          data)
  ∧ Z.of_nat (length data) - 1 - 0 + 1 = Z.of_nat (length data).
Proof.
  intros Hid Hfile Hext.
  rewrite (stream_plain_response _ _ _ _ target data) by done.
  rewrite range_bounds_absent. cbn [fst snd stream_status truthy_opt].
  split; [|lia]. do 2 f_equal. unfold slice. rewrite drop_0. apply take_ge. lia.
Qed.

Lemma stream_whole_file_witness :
  _stream (fun _ => None) None (ulit "s1") (disk_of "s1" ".mp3" ten_bytes)
  = Ok (SendBytes 200
          (stream_headers (mime_of (fun _ => None) (song_of "s1" ".mp3" ten_bytes)) 0
                          (Z.of_nat (length ten_bytes) - 1) (Z.of_nat (length ten_bytes)))
          ten_bytes)
  ∧ Z.of_nat (length ten_bytes) - 1 - 0 + 1 = Z.of_nat (length ten_bytes).
Proof.
  apply (stream_whole_file (fun _ => None) (ulit "s1") (disk_of "s1" ".mp3" ten_bytes)
           (song_of "s1" ".mp3" ten_bytes) ten_bytes).
  - vm_compute. reflexivity.
  - vm_compute. reflexivity.
  - vm_compute. discriminate.
Defined.

(** ** More on the transcoder *)

Lemma pack_I_inv v b : pack_I v = Ok b → 0 ≤ v ≤ 4294967295.
Proof.
  unfold pack_I.
  destruct (Z.leb_spec 0 v); [|done]. destruct (Z.leb_spec v 4294967295); [|done].
  cbn [andb]. intros _. lia.
Qed.

Lemma pack_H_inv v b : pack_H v = Ok b → 0 ≤ v ≤ 65535.
Proof.
  unfold pack_H.
  destruct (Z.leb_spec 0 v); [|done]. destruct (Z.leb_spec v 65535); [|done].
  cbn [andb]. intros _. lia.
Qed.

(** A header is packed only from values that fit their fields. *)
Lemma pack_wav_header_inv chunk_size channels sample_rate byte_rate block_align
      bit_depth pcm_size hdr :
  pack_wav_header chunk_size channels sample_rate byte_rate block_align bit_depth pcm_size
  = Ok hdr →
  chunk_size ≤ 4294967295 ∧ byte_rate ≤ 4294967295 ∧ block_align ≤ 65535 ∧ 0 ≤ pcm_size.
Proof.
  unfold pack_wav_header.
  destruct (pack_I chunk_size) as [?|?] eqn:H1; [|done]. rewrite bind_Ok.
  destruct (pack_I 16) as [?|?]; [|done]. rewrite bind_Ok.
  destruct (pack_H 1) as [?|?]; [|done]. rewrite bind_Ok.
  destruct (pack_H channels) as [?|?]; [|done]. rewrite bind_Ok.
  destruct (pack_I sample_rate) as [?|?]; [|done]. rewrite bind_Ok.
  destruct (pack_I byte_rate) as [?|?] eqn:H2; [|done]. rewrite bind_Ok.
  destruct (pack_H block_align) as [?|?] eqn:H3; [|done]. rewrite bind_Ok.
  destruct (pack_H bit_depth) as [?|?]; [|done]. rewrite bind_Ok.
  destruct (pack_I pcm_size) as [?|?] eqn:H4; [|done]. intros _.
  apply pack_I_inv in H1, H2, H4. apply pack_H_inv in H3. lia.
Qed.

Lemma pack_wav_header_fits chunk_size channels sample_rate byte_rate block_align pcm_size :
  0 ≤ chunk_size ≤ 4294967295 → 0 ≤ channels ≤ 65535 → 0 ≤ sample_rate ≤ 4294967295 →
  0 ≤ byte_rate ≤ 4294967295 → 0 ≤ block_align ≤ 65535 → 0 ≤ pcm_size ≤ 4294967295 →
  ∃ hdr, pack_wav_header chunk_size channels sample_rate byte_rate block_align 16 pcm_size
         = Ok hdr ∧ length hdr = 44%nat.
Proof.
  intros. unfold pack_wav_header.
  rewrite !pack_I_Ok, !pack_H_Ok by lia. rewrite !bind_Ok.
  eexists. split; [done|].
  rewrite !length_app, !length_le_bytes. done.
Qed.

Lemma fc_header_fields (data : bytes) :
  take 4 (take 6 data) = take 4 data
  ∧ take 2 (drop 4 (take 6 data)) = take 2 (drop 4 data).
Proof.
  split.
  - by rewrite take_take.
  - rewrite !take_drop_commute. cbn [Nat.add]. by rewrite take_take.
Qed.

Lemma fc_rate_bound (data : bytes) : 0 ≤ from_le (take 4 data) ≤ 4294967295.
Proof.
  split; [apply from_le_nonneg|].
  pose proof (from_le_bound (take 4 data)) as Hb.
  assert (256 ^ Z.of_nat (length (take 4 data)) ≤ 256 ^ 4).
  { apply Z.pow_le_mono_r; [lia|]. rewrite length_take. lia. }
  lia.
Qed.

Lemma fc_channels_bound (data : bytes) : 0 ≤ from_le (take 2 (drop 4 data)) ≤ 65535.
Proof.
  split; [apply from_le_nonneg|].
  pose proof (from_le_bound (take 2 (drop 4 data))) as Hb.
  assert (256 ^ Z.of_nat (length (take 2 (drop 4 data))) ≤ 256 ^ 2).
  { apply Z.pow_le_mono_r; [lia|]. rewrite length_take. lia. }
  lia.
Qed.

(** What the transcoder sends for a file that fits. *)
Lemma fc_as_wav_fits (data : bytes) :
  fits_wav data →
  ∃ hdr, length hdr = 44%nat
         ∧ _stream_fc_as_wav data = Ok (SendBytes 200 wav_headers (hdr ++ drop 6 data)).
Proof.
  intros (Hlen & Halign & Hrate & Hsize).
  unfold _stream_fc_as_wav. cbv zeta.
  destruct (fc_header_fields data) as [-> ->].
  pose proof (fc_rate_bound data) as HR. pose proof (fc_channels_bound data) as HC.
  set (R := from_le (take 4 data)) in *. set (C := from_le (take 2 (drop 4 data))) in *.
  replace (R * C * 16) with (R * C * 2 * 8) by lia.
  replace (C * 16) with (C * 2 * 8) by lia.
  rewrite !Z.div_mul by lia.
  destruct (pack_wav_header_fits (36 + (Z.of_nat (length data) - 6)) C R (R * C * 2) (C * 2)
              (Z.of_nat (length data) - 6)) as (hdr & -> & Hhdr); try nia.
  rewrite bind_Ok, copy_chunks_all by lia. by exists hdr.
Qed.

(** The transcoder answers only a file that fits. *)
Lemma fc_as_wav_Ok_fits (data : bytes) r : _stream_fc_as_wav data = Ok r → fits_wav data.
Proof.
  unfold _stream_fc_as_wav. cbv zeta.
  destruct (fc_header_fields data) as [-> ->].
  pose proof (fc_rate_bound data) as HR. pose proof (fc_channels_bound data) as HC.
  set (R := from_le (take 4 data)) in *. set (C := from_le (take 2 (drop 4 data))) in *.
  replace (R * C * 16) with (R * C * 2 * 8) by lia.
  replace (C * 16) with (C * 2 * 8) by lia.
  rewrite !Z.div_mul by lia.
  destruct (pack_wav_header _ _ _ _ _ _ _) as [hdr|e] eqn:Hpack; [|done].
  intros _. apply pack_wav_header_inv in Hpack. unfold fits_wav. fold R C. lia.
Qed.

Lemma fc_as_wav_raises (data : bytes) e : _stream_fc_as_wav data = Raise e → e = StructError.
Proof.
  unfold _stream_fc_as_wav. cbv zeta.
  destruct (pack_wav_header_cases
              (36 + (Z.of_nat (length data) - 6)) (from_le (take 2 (drop 4 (take 6 data))))
              (from_le (take 4 (take 6 data)))
              ((from_le (take 4 (take 6 data)) * from_le (take 2 (drop 4 (take 6 data))) * 16) `div` 8)
              ((from_le (take 2 (drop 4 (take 6 data))) * 16) `div` 8) 16
              (Z.of_nat (length data) - 6)) as [[hdr ->]| ->]; [done|].
  cbn [mbind result_bind]. congruence.
Qed.

(** X19.  The transcoder answers a raw-sample file exactly when the file
    holds its 6-byte header and the block alignment, the byte rate and the
    size derived from it fit their fields of the RIFF/WAVE header; the
    answer is then a 44-byte header followed by every byte of the file
    after its own header.  For every other file it raises [struct.error]. *)
Theorem fc_as_wav_answers_iff (data : bytes) :
  (fits_wav data ↔
   ∃ hdr, length hdr = 44%nat
          ∧ _stream_fc_as_wav data = Ok (SendBytes 200 wav_headers (hdr ++ drop 6 data)))
  ∧ (¬ fits_wav data ↔ _stream_fc_as_wav data = Raise StructError).
Proof.
  split; split.
  - apply fc_as_wav_fits.
  - intros (hdr & _ & Hsent). by apply fc_as_wav_Ok_fits in Hsent.
  - intros Hno. destruct (_stream_fc_as_wav data) as [r|e] eqn:Hsent.
    + by apply fc_as_wav_Ok_fits in Hsent.
    + by apply fc_as_wav_raises in Hsent as ->.
  - intros Hraise (hdr & _ & Hsent)%fc_as_wav_fits. congruence.
Qed.

(** ** What [_stream] raises *)

Lemma stream_fc guess_type range_header raw_id d target data :
  find_song (unquote raw_id) (get_songs d) = Some target →
  uploads d !! s_filename target = Some data →
  s_ext target = ulit ".fc" →
  _stream guess_type range_header raw_id d = _stream_fc_as_wav data.
Proof.
  intros Hid Hfile Hext. unfold _stream. cbv zeta.
  rewrite Hid, Hfile. by rewrite bool_decide_eq_true_2.
Qed.

(** X20.  A request for a raw-sample file is answered without regard to
    its Range header and to the table of media types: the response is the
    transcoder's, whatever the two are. *)
Theorem stream_fc_ignores_range guess_type guess_type' range_header range_header'
        raw_id d target data :
  find_song (unquote raw_id) (get_songs d) = Some target →
  uploads d !! s_filename target = Some data →
  s_ext target = ulit ".fc" →
  _stream guess_type range_header raw_id d = _stream guess_type' range_header' raw_id d
  ∧ ∀ status headers body,
      _stream guess_type range_header raw_id d = Ok (SendBytes status headers body) →
      status = 200 ∧ headers = wav_headers
      ∧ Z.of_nat (length body) = 38 + Z.of_nat (length data).
Proof.
  intros Hid Hfile Hext.
  rewrite !(stream_fc _ _ _ _ target data) by done. split; [done|].
  intros status headers body Hsent.
  pose proof (fc_as_wav_Ok_fits _ _ Hsent) as Hfits.
  destruct (fc_as_wav_fits data Hfits) as (hdr & Hhdr & Hsent').
  rewrite Hsent' in Hsent. injection Hsent as <- <- <-.
  repeat split. rewrite length_app, length_drop, Hhdr.
  destruct Hfits as (Hlen & _). lia.
Qed.

Lemma stream_fc_ignores_range_witness :
  let d := disk_of "fc01" ".fc" (stereo_hdr ++ four_samples) in
  _stream (fun _ => None) None (ulit "fc01") d
  = _stream (fun _ => Some (ulit "audio/x-fc")) (Some (hlit "bytes=2-5")) (ulit "fc01") d
  ∧ ∀ status headers body,
      _stream (fun _ => None) None (ulit "fc01") d = Ok (SendBytes status headers body) →
      status = 200 ∧ headers = wav_headers
      ∧ Z.of_nat (length body) = 38 + Z.of_nat (length (stereo_hdr ++ four_samples)).
Proof.
  apply (stream_fc_ignores_range (fun _ => None) (fun _ => Some (ulit "audio/x-fc")) None
           (Some (hlit "bytes=2-5")) (ulit "fc01")
           (disk_of "fc01" ".fc" (stereo_hdr ++ four_samples))
           (song_of "fc01" ".fc" (stereo_hdr ++ four_samples))
           (stereo_hdr ++ four_samples)).
  - vm_compute. reflexivity.
  - vm_compute. reflexivity.
  - vm_compute. reflexivity.
Defined.




(** ** An upload, then a request for it *)

Lemma unquote_plain s : PERCENT ∉ s → unquote s = s.
Proof. intros Hs. unfold unquote. by rewrite bool_decide_eq_false_2. Qed.

Lemma slice_whole (data : bytes) : slice 0 (Z.of_nat (length data) - 1) data = data.
Proof. unfold slice. rewrite drop_0. apply take_ge. lia. Qed.

Lemma find_song_fresh song_id (songs : list song) meta :
  song_id ∉ s_id <$> songs → s_id meta = song_id →
  find_song song_id (songs ++ [meta]) = Some meta.
Proof.
  intros Hfresh%find_song_None Hid. rewrite find_song_app, Hfresh.
  unfold find_song. cbn [filter list_filter]. by rewrite decide_True.
Qed.

(** X22.  A file that has just been accepted under an id the catalog did
    not hold can be played at once: unless it is a raw-sample file, a
    request for its id without Range header is answered with 200, the
    size the record gives, and the bytes that were stored. *)
Theorem upload_then_stream guess_type rq fr d meta d' :
  _api_upload rq fr d = Ok (send_json (JUploaded meta) 201, d') →
  uuid4 fr ∉ s_id <$> get_songs d →
  PERCENT ∉ uuid4 fr →
  s_ext meta ≠ ulit ".fc" →
  ∃ data,
    uploads d' !! s_filename meta = Some data
    ∧ _stream guess_type None (s_id meta) d'
      = Ok (SendBytes 200
              (stream_headers (mime_of guess_type meta) 0 (s_size meta - 1) (s_size meta))
              data).
Proof.
  intros [(msg & Hr & _) | (b & n & parsed & data & fn & _ & _ & _ & _ & _ & _ & Hr & ->)]%api_upload_inv
         Hfresh Hplain Hext; [done|].
  injection Hr as ->. cbn [s_id s_ext s_filename s_size] in *.
  exists data. split; [apply lookup_insert_eq|].
  erewrite stream_plain_response.
  - rewrite range_bounds_absent. cbn [fst snd stream_status truthy_opt].
    by rewrite slice_whole.
  - rewrite unquote_plain by done. unfold add_song, get_songs. rewrite load_save.
    by apply find_song_fresh.
  - apply lookup_insert_eq.
  - done.
Qed.

Lemma upload_then_stream_witness :
  ∃ data,
    uploads (disk_of "0b5cfa0e-6f0b-4e53-9a3c-3f1f2d1c9a77" ".mp3" (blit "A"))
      !! s_filename (song_of "0b5cfa0e-6f0b-4e53-9a3c-3f1f2d1c9a77" ".mp3" (blit "A"))
    = Some data
    ∧ _stream (fun _ => None) None
              (s_id (song_of "0b5cfa0e-6f0b-4e53-9a3c-3f1f2d1c9a77" ".mp3" (blit "A")))
              (disk_of "0b5cfa0e-6f0b-4e53-9a3c-3f1f2d1c9a77" ".mp3" (blit "A"))
      = Ok (SendBytes 200
              (stream_headers
                 (mime_of (fun _ => None)
                          (song_of "0b5cfa0e-6f0b-4e53-9a3c-3f1f2d1c9a77" ".mp3" (blit "A")))
                 0
                 (s_size (song_of "0b5cfa0e-6f0b-4e53-9a3c-3f1f2d1c9a77" ".mp3" (blit "A")) - 1)
                 (s_size (song_of "0b5cfa0e-6f0b-4e53-9a3c-3f1f2d1c9a77" ".mp3" (blit "A"))))
              data).
Proof.
  apply (upload_then_stream (fun _ => None) (post_of newline_file_body) sample_fresh empty_disk).
  - vm_compute. reflexivity.
  - vm_compute. apply not_elem_of_nil.
  - vm_compute. intros Hin. repeat (apply elem_of_cons in Hin as [Hin|Hin]; [discriminate Hin|]).
    by apply elem_of_nil in Hin.
  - vm_compute. discriminate.
Defined.

(** ** The listing and the random pick *)

Lemma random_choice_elem {A} (r : nat) (s0 : A) (pool : list A) :
  pool ≠ [] → random_choice r s0 pool ∈ pool.
Proof.
  intros Hne. unfold random_choice.
  assert (r `mod` length pool < length pool)%nat as Hlt.
  { apply Nat.mod_upper_bound. by destruct pool. }
  apply lookup_lt_is_Some_2 in Hlt as [s Hs]. rewrite Hs.
  by apply list_elem_of_lookup_2 in Hs.
Qed.

(** What [_api_random] sends when the catalog is not empty. *)
Lemma api_random_pool qs r d :
  get_songs d ≠ [] →
  let others := filter (fun s => s_id s ≠ qs_first qs "exclude") (get_songs d) in
  ∃ s, _api_random qs r d = SendSong s
       ∧ s ∈ (if truthy others then others else get_songs d).
Proof.
  intros Hne. cbv zeta. unfold _api_random. cbv zeta.
  destruct (if truthy _ then _ else _) as [|s0 pool] eqn:Hpool.
  - destruct (filter _ _); [done|discriminate Hpool].
  - eexists. split; [done|]. by apply random_choice_elem.
Qed.

(** X23.  The random pick answers 404 exactly when the catalog is empty;
    otherwise it sends one record of the catalog, whatever the generator
    draws and whatever the request excludes. *)
Theorem api_random_in_catalog qs r d :
  match get_songs d with
  | [] => _api_random qs r d = Reply (send_error_json (ulit "No songs available") 404)
  | _ :: _ => ∃ s, _api_random qs r d = SendSong s ∧ s ∈ get_songs d
  end.
Proof.
  destruct (get_songs d) as [|s0 songs] eqn:Hsongs.
  - unfold _api_random. cbv zeta. by rewrite Hsongs.
  - destruct (api_random_pool qs r d) as (s & Hsent & Hin); [by rewrite Hsongs|].
    exists s. split; [done|]. rewrite <- Hsongs.
    destruct (truthy _); [|done]. by apply list_elem_of_filter in Hin as [_ Hin].
Qed.

(** X24.  The random pick never sends the excluded record while the
    catalog holds another one. *)
Theorem api_random_excludes qs r d other :
  other ∈ get_songs d → s_id other ≠ qs_first qs "exclude" →
  ∃ s, _api_random qs r d = SendSong s
       ∧ s ∈ get_songs d
       ∧ s_id s ≠ qs_first qs "exclude".
Proof.
  intros Hin Hother.
  destruct (api_random_pool qs r d) as (s & Hsent & Hs).
  { intros Hnil. rewrite Hnil in Hin. by apply elem_of_nil in Hin. }
  exists s. split; [done|].
  destruct (filter _ (get_songs d)) as [|s1 others] eqn:Hothers.
  - exfalso. by apply (filter_nil_not_elem_of _ _ other Hothers).
  - cbn [truthy] in Hs. rewrite <- Hothers in Hs.
    apply list_elem_of_filter in Hs as [Hne Hs]. done.
Qed.

Lemma api_random_excludes_witness :
  ∃ s, _api_random {[ ulit "exclude" := (ulit "s1", []) ]} 7
                   (Disk (Some (json_dumps [song_of "s1" ".mp3" ten_bytes;
                                            song_of "s2" ".mp3" ten_bytes])) ∅)
       = SendSong s
       ∧ s ∈ get_songs (Disk (Some (json_dumps [song_of "s1" ".mp3" ten_bytes;
                                                 song_of "s2" ".mp3" ten_bytes])) ∅)
       ∧ s_id s ≠ qs_first {[ ulit "exclude" := (ulit "s1", []) ]} "exclude".
Proof.
  apply (api_random_excludes {[ ulit "exclude" := (ulit "s1", []) ]} 7
           (Disk (Some (json_dumps [song_of "s1" ".mp3" ten_bytes;
                                    song_of "s2" ".mp3" ten_bytes])) ∅)
           (song_of "s2" ".mp3" ten_bytes)).
  - apply elem_of_cons. right. apply elem_of_cons. by left.
  - vm_compute. discriminate.
Defined.

(** X25.  The listing sends records of the catalog in the order of the
    catalog.  When the lower-cased query is empty it sends all of them;
    otherwise it sends exactly those whose lower-cased title or artist
    holds the lower-cased query. *)
Theorem api_songs_search str_lower qs d :
  ∃ songs,
    _api_songs str_lower qs d = SendSongs songs
    ∧ songs `sublist_of` get_songs d
    ∧ ∀ s, s ∈ songs ↔
           s ∈ get_songs d
           ∧ (str_lower (qs_first qs "q") = []
              ∨ contains (str_lower (qs_first qs "q")) (str_lower (s_title s)) = true
              ∨ contains (str_lower (qs_first qs "q")) (str_lower (s_artist s)) = true).
Proof.
  unfold _api_songs. cbv zeta. eexists. split; [done|].
  destruct (str_lower (qs_first qs "q")) as [|c q] eqn:Hq; cbn [truthy].
  - split; [done|]. intros s. split; [by auto|by intros [? _]].
  - split; [apply sublist_filter|]. intros s.
    rewrite list_elem_of_filter. unfold matches. rewrite orb_true_iff.
    split.
    + intros [Hm Hin]. split; [done|]. by right.
    + intros [Hin [Hnil|Hm]]; [done|]. by split.
Qed.

(** ** Routing *)

Lemma rstrip_slashes (p : str) n :
  rstrip (one_of [SLASH]) (p ++ replicate n SLASH) = rstrip (one_of [SLASH]) p.
Proof.
  apply rstrip_app_all. apply Forall_replicate.
  unfold one_of. apply bool_decide_eq_true_2. by apply list_elem_of_singleton.
Qed.

(** X26.  Slashes at the end of the path of a request change nothing in
    what any of the three handlers does. *)
Theorem trailing_slashes_ignored guess_type str_lower index_html p n qs range r d rq fr :
  do_GET guess_type str_lower index_html (GetRequest (p ++ replicate n SLASH) qs range) r d
  = do_GET guess_type str_lower index_html (GetRequest p qs range) r d
  ∧ do_POST (p ++ replicate n SLASH) rq fr d = do_POST p rq fr d
  ∧ do_DELETE (p ++ replicate n SLASH) d = do_DELETE p d.
Proof.
  unfold do_GET, do_POST, do_DELETE. cbv zeta. cbn [url_path url_qs hdr_range].
  by rewrite !rstrip_slashes.
Qed.

Lemma rstrip_last_keep (p : str) :
  last p ≠ Some SLASH → rstrip (one_of [SLASH]) p = p.
Proof.
  intros Hlast. apply rstrip_keep. intros x Hx. unfold one_of.
  apply bool_decide_eq_false_2. rewrite list_elem_of_singleton. congruence.
Qed.

Lemma last_app_nonempty {A} (p s : list A) : s ≠ [] → last (p ++ s) = last s.
Proof. destruct s as [|x s]; [done|]. intros _. apply last_app_cons. Qed.

(** X27.  A GET request for [/stream/] followed by a text that is not
    empty and does not end with a slash is answered by [_stream] on that
    text, with the Range header of the request; slashes inside the text
    stay in it. *)
Theorem get_stream_route guess_type str_lower index_html raw_id qs range r d :
  raw_id ≠ [] → last raw_id ≠ Some SLASH →
  do_GET guess_type str_lower index_html
         (GetRequest (ulit "/stream/" ++ raw_id) qs range) r d
  = (sent ← _stream guess_type range raw_id d; Ok (Reply sent)).
Proof.
  intros Hne Hlast. unfold do_GET. cbv zeta. cbn [url_path url_qs hdr_range].
  rewrite rstrip_last_keep by (by rewrite last_app_nonempty).
  assert (or_else (ulit "/stream/" ++ raw_id) (ulit "/") = ulit "/stream/" ++ raw_id) as ->
    by done.
  rewrite !bool_decide_eq_false_2; [|by vm_compute..].
  cbn [orb]. rewrite startswith_app.
  by rewrite (drop_app_length' (ulit "/stream/")).
Qed.

Lemma get_stream_route_witness :
  do_GET (fun _ => None) lower None
         (GetRequest (ulit "/stream/" ++ ulit "a/b") ∅ None) 0 empty_disk
  = (sent ← _stream (fun _ => None) None (ulit "a/b") empty_disk; Ok (Reply sent)).
Proof.
  apply (get_stream_route (fun _ => None) lower None (ulit "a/b") ∅ None 0%nat empty_disk).
  - discriminate.
  - vm_compute. discriminate.
Defined.



Section LastPiece.
Context {A : Type} `{EqDecision A}.

(** The last piece of a split is what stands after the last separator. *)
Lemma last_split_lit (c : A) s t :
  c ∉ t → last (split_lit (s ++ [c] ++ t) [c]) = Some t.
Proof.
  intros Ht. remember (length s) as n eqn:Hn. revert s Hn.
  induction n as [n IH] using lt_wf_ind. intros s ->.
  destruct (decide (c ∈ s)) as [Hin|Hout].
  - apply list_elem_of_split_l in Hin as (p & s' & -> & Hp).
    rewrite <- app_assoc.
    change (p ++ (c :: s') ++ [c] ++ t) with (p ++ [c] ++ (s' ++ [c] ++ t)).
    rewrite split_lit_cut; [|done|by apply find_single_end].
    rewrite last_cons. erewrite IH; [done| |done].
    rewrite length_app. simpl. lia.
  - by rewrite split_lit_two.
Qed.
End LastPiece.

(** X29.  A DELETE request under [/api/songs/] deletes the record named
    by the last segment of its path, whatever stands between the prefix
    and that segment. *)
Theorem delete_last_segment prefix song_id d :
  startswith (prefix ++ [SLASH] ++ song_id) (ulit "/api/songs/") = true →
  song_id ≠ [] → SLASH ∉ song_id →
  do_DELETE (prefix ++ [SLASH] ++ song_id) d = _api_delete song_id d.
Proof.
  intros Hroute Hne Hid. unfold do_DELETE. cbv zeta.
  rewrite rstrip_last_keep.
  - rewrite Hroute. change (ulit "/") with [SLASH]. by rewrite last_split_lit.
  - rewrite app_assoc, last_app_nonempty by done.
    intros Hlast%last_Some_elem_of. done.
Qed.

Lemma delete_last_segment_witness :
  do_DELETE (ulit "/api/songs/x" ++ [SLASH] ++ ulit "s1") (disk_of "s1" ".mp3" ten_bytes)
  = _api_delete (ulit "s1") (disk_of "s1" ".mp3" ten_bytes).
Proof.
  apply (delete_last_segment (ulit "/api/songs/x") (ulit "s1")
           (disk_of "s1" ".mp3" ten_bytes)).
  - vm_compute. reflexivity.
  - discriminate.
  - vm_compute. intros Hin.
    repeat (apply elem_of_cons in Hin as [Hin|Hin]; [discriminate Hin|]).
    by apply elem_of_nil in Hin.
Defined.
